(** * The funnel of [src/funnel.ts]: a shallow embedding and its properties

    [funnel(reduceArgs, execute, policy)] builds an object whose methods
    [call], [cancel] and [flush] share four closure variables and talk to
    the JavaScript runtime through [setTimeout], [clearTimeout] and
    [Date.now].  The embedding keeps that shape:

    - the closure variables are the record [closure];
    - the runtime is the record [world]: a clock, the table of pending
      timers (a [gmap] from timer ids to [timer]s), the closure, and the
      log of what an observer of the funnel has seen;
    - every function of the source is a [world -> world] transformer whose
      body follows the source statement by statement;
    - the event loop is the partial function [step]: a timer may fire at
      any instant at or after its deadline, never before.

    Durations and timestamps are integer milliseconds ([Z]).  The
    JavaScript value [undefined] is [None]; a reducer is free to return
    it, so [reduceArgs] has codomain [option T].  The executor is an
    observer: it appends to the log the instant, the value it was handed
    and the closure variables as they stood when it ran; it does not call
    back into the funnel and does not throw. *)

From stdpp Require Import base option list gmap strings.
From Stdlib Require Import ZArith Lia.

Local Open Scope Z_scope.

(** ** Data *)

(** [TimingPolicy["invokedAt"]]: ["both" | "end" | "start"]. *)
Inductive InvokedAt := AtBoth | AtEnd | AtStart.

(** [type TimingPolicy]; every field is optional. *)
Record TimingPolicy := {
  invokedAt : option InvokedAt;
  burstCoolDownMs : option Z;
  maxBurstDurationMs : option Z;
  delayMs : option Z;
}.

(** The two callbacks the funnel ever hands to [setTimeout]. *)
Inductive handler := HandleDelayEnd | HandleBurstEnd.

(** A pending timer: its callback, the instant [setTimeout] was called and
    the delay that was asked for. *)
Record timer := {
  callback : handler;
  armedAt : Z;
  timeoutMs : Z;
}.

(** The runtime never runs a callback early; a negative delay counts as 0. *)
Definition deadline (tm : timer) : Z := armedAt tm + Z.max 0 (timeoutMs tm).

(** The [let] variables of the closure, lines 122-131. *)
Record closure (T : Type) := {
  burstTimeoutId : option nat;
  delayTimeoutId : option nat;
  preparedData : option T;
  burstStartTimestamp : option Z;
}.
Arguments burstTimeoutId {T} _.
Arguments delayTimeoutId {T} _.
Arguments preparedData {T} _.
Arguments burstStartTimestamp {T} _.

(** What an observer sees: a [call] being made, and the executor running. *)
Inductive obs (A T : Type) :=
  | ObsCall (t : Z) (a : A)
  | ObsExec (t : Z) (data : T) (seen : closure T).
Arguments ObsCall {A T} t a.
Arguments ObsExec {A T} t data seen.

(** The runtime together with one funnel.  [log] is newest first. *)
Record world (A T : Type) := {
  now : Z;
  nextId : nat;
  timers : gmap nat timer;
  vars : closure T;
  log : list (obs A T);
}.
Arguments now {A T} _.
Arguments nextId {A T} _.
Arguments timers {A T} _.
Arguments vars {A T} _.
Arguments log {A T} _.

(** [x === undefined] *)
Definition undefined {X : Type} (o : option X) : bool :=
  match o with None => true | Some _ => false end.

Definition invokedAt_eqb (x y : InvokedAt) : bool :=
  match x, y with
  | AtBoth, AtBoth | AtEnd, AtEnd | AtStart, AtStart => true
  | _, _ => false
  end.

(** The events of the event loop: the three methods, a timer firing, and
    time passing. *)
Inductive event (A : Type) :=
  | Call (a : A)
  | Cancel
  | Flush
  | Fire (id : nat)
  | Advance (ms : Z).
Arguments Call {A} a.
Arguments Cancel {A}.
Arguments Flush {A}.
Arguments Fire {A} id.
Arguments Advance {A} ms.

(** ** The runtime *)

Section Runtime.
Context {A T : Type}.
Implicit Types (w : world A T) (c : closure T).

Definition with_vars (f : closure T -> closure T) w : world A T :=
  {| now := now w; nextId := nextId w; timers := timers w;
     vars := f (vars w); log := log w |}.

Definition with_timers (f : gmap nat timer -> gmap nat timer) w : world A T :=
  {| now := now w; nextId := nextId w; timers := f (timers w);
     vars := vars w; log := log w |}.

Definition record (o : obs A T) w : world A T :=
  {| now := now w; nextId := nextId w; timers := timers w;
     vars := vars w; log := o :: log w |}.

Definition set_burstTimeoutId (v : option nat) c : closure T :=
  {| burstTimeoutId := v; delayTimeoutId := delayTimeoutId c;
     preparedData := preparedData c;
     burstStartTimestamp := burstStartTimestamp c |}.

Definition set_delayTimeoutId (v : option nat) c : closure T :=
  {| burstTimeoutId := burstTimeoutId c; delayTimeoutId := v;
     preparedData := preparedData c;
     burstStartTimestamp := burstStartTimestamp c |}.

Definition set_preparedData (v : option T) c : closure T :=
  {| burstTimeoutId := burstTimeoutId c; delayTimeoutId := delayTimeoutId c;
     preparedData := v;
     burstStartTimestamp := burstStartTimestamp c |}.

Definition set_burstStartTimestamp (v : option Z) c : closure T :=
  {| burstTimeoutId := burstTimeoutId c; delayTimeoutId := delayTimeoutId c;
     preparedData := preparedData c;
     burstStartTimestamp := v |}.

(** [setTimeout(h, ms)]: a fresh id, a new pending timer. *)
Definition setTimeout (h : handler) (ms : Z) w : nat * world A T :=
  (nextId w,
   {| now := now w; nextId := S (nextId w);
      timers := <[nextId w :=
                    {| callback := h; armedAt := now w; timeoutMs := ms |}]>
                  (timers w);
      vars := vars w; log := log w |}).

(** [clearTimeout(id)]: nothing happens for [undefined] or for an id that
    is not pending. *)
Definition clearTimeout (id : option nat) w : world A T :=
  match id with
  | None => w
  | Some i => with_timers (delete i) w
  end.

(** [Date.now()] *)
Definition Date_now w : Z := now w.

(** [execute(param)], seen from outside. *)
Definition execute (param : T) w : world A T :=
  record (ObsExec (now w) param (vars w)) w.
End Runtime.

(** ** The funnel *)

Section Funnel.
Context {A T : Type}.
Variable reduceArgs : option T -> A -> option T.
Variable policy : TimingPolicy.
Implicit Types (w : world A T) (c : closure T).

(** The destructuring default of line 113: [invokedAt = "end"]. *)
Definition invokedAtOrDefault : InvokedAt :=
  match invokedAt policy with
  | Some e => e
  | None => AtEnd
  end.

(** Lines 133-148. *)
Definition invoke w : world A T :=
  match preparedData (vars w) with
  | None => w
  | Some param =>
      let w := with_vars (set_preparedData None) w in
      let w := execute param w in
      match delayMs policy with
      | Some ms =>
          let '(id, w) := setTimeout HandleDelayEnd ms w in
          with_vars (set_delayTimeoutId (Some id)) w
      | None => w
      end
  end.

(** Lines 150-164. *)
Definition handleDelayEnd w : world A T :=
  let w := clearTimeout (delayTimeoutId (vars w)) w in
  let w := with_vars (set_delayTimeoutId None) w in
  if undefined (burstTimeoutId (vars w)) then invoke w else w.

(** Lines 166-181. *)
Definition handleBurstEnd w : world A T :=
  let w := clearTimeout (burstTimeoutId (vars w)) w in
  let w := with_vars (set_burstTimeoutId None) w in
  let w := with_vars (set_burstStartTimestamp None) w in
  if undefined (delayTimeoutId (vars w)) then invoke w else w.

(** The getter of lines 246-248. *)
Definition isIdle w : bool :=
  undefined (burstTimeoutId (vars w)) && undefined (delayTimeoutId (vars w)).

(** Lines 217-225, with both readings of the clock at the same instant. *)
Definition burstRemainingMs (cool : Z) (nowMs start : Z) : Z :=
  match maxBurstDurationMs policy with
  | None => cool
  | Some maxMs => Z.min cool (maxMs - (nowMs - start))
  end.

(** Lines 184-228. *)
Definition call (a : A) w : world A T :=
  let idle := isIdle w in
  let w :=
    if negb (invokedAt_eqb invokedAtOrDefault AtStart) || idle
    then with_vars (set_preparedData (reduceArgs (preparedData (vars w)) a)) w
    else w in
  let w :=
    if negb (invokedAt_eqb invokedAtOrDefault AtEnd) && idle
    then invoke w
    else w in
  match burstCoolDownMs policy with
  | None => w
  | Some cool =>
      if undefined (burstTimeoutId (vars w)) && negb idle then w
      else
        let w := clearTimeout (burstTimeoutId (vars w)) w in
        let start :=
          match burstStartTimestamp (vars w) with
          | Some s => s
          | None => Date_now w
          end in
        let w := with_vars (set_burstStartTimestamp (Some start)) w in
        let '(id, w) :=
          setTimeout HandleBurstEnd (burstRemainingMs cool (Date_now w) start) w in
        with_vars (set_burstTimeoutId (Some id)) w
  end.

(** Lines 230-239. *)
Definition cancel w : world A T :=
  let w := clearTimeout (burstTimeoutId (vars w)) w in
  let w := with_vars (set_burstTimeoutId None) w in
  let w := with_vars (set_burstStartTimestamp None) w in
  let w := clearTimeout (delayTimeoutId (vars w)) w in
  let w := with_vars (set_delayTimeoutId None) w in
  with_vars (set_preparedData None) w.

(** Lines 241-244. *)
Definition flush w : world A T :=
  handleDelayEnd (handleBurstEnd w).

(** ** The event loop *)

Definition run_handler (h : handler) w : world A T :=
  match h with
  | HandleDelayEnd => handleDelayEnd w
  | HandleBurstEnd => handleBurstEnd w
  end.

Definition advance (ms : Z) w : world A T :=
  {| now := now w + ms; nextId := nextId w; timers := timers w;
     vars := vars w; log := log w |}.

(** A call is noted in the log, then runs.  A pending timer fires once
    its deadline has passed; the runtime forgets it before running its
    callback. *)
Definition step (ev : event A) w : option (world A T) :=
  match ev with
  | Call a => Some (call a (record (ObsCall (now w) a) w))
  | Cancel => Some (cancel w)
  | Flush => Some (flush w)
  | Fire id =>
      match timers w !! id with
      | Some tm =>
          if Z.leb (deadline tm) (now w)
          then Some (run_handler (callback tm) (with_timers (delete id) w))
          else None
      | None => None
      end
  | Advance ms => if Z.leb 0 ms then Some (advance ms w) else None
  end.

Fixpoint run (evs : list (event A)) w : option (world A T) :=
  match evs with
  | [] => Some w
  | ev :: evs =>
      match step ev w with
      | Some w' => run evs w'
      | None => None
      end
  end.
End Funnel.

(** A funnel that has just been built, at instant [t0]. *)
Definition init {A T : Type} (t0 : Z) : world A T :=
  {| now := t0; nextId := 0%nat; timers := ∅;
     vars := {| burstTimeoutId := None; delayTimeoutId := None;
                preparedData := None; burstStartTimestamp := None |};
     log := [] |}.

(** ** Reading the log *)

Section Log.
Context {A T : Type}.
Implicit Types (l : list (obs A T)).

(** The executor's runs, newest first: instant and value. *)
Fixpoint executions l : list (Z * T) :=
  match l with
  | [] => []
  | ObsCall _ _ :: l => executions l
  | ObsExec t p _ :: l => (t, p) :: executions l
  end.

(** The calls made since the executor last ran, newest first. *)
Fixpoint calls_since_exec l : list (Z * A) :=
  match l with
  | ObsCall t a :: l => (t, a) :: calls_since_exec l
  | _ => []
  end.
End Log.

(** ** Specifications over runs *)

Section Specs.
Context {A T : Type}.
Variable reduceArgs : option T -> A -> option T.
Variable policy : TimingPolicy.
Implicit Types (w : world A T) (l : list (obs A T)).

(** A script of calls, timer callbacks and passing time: neither [flush]
    nor [cancel]. *)
Definition call_or_timer (ev : event A) : bool :=
  match ev with
  | Flush | Cancel => false
  | _ => true
  end.

(** A script of calls and waiting only. *)
Definition call_or_wait (ev : event A) : bool :=
  match ev with
  | Call _ => true
  | Advance ms => 0 <=? ms
  | _ => false
  end.

Fixpoint calls_of (evs : list (event A)) : list A :=
  match evs with
  | [] => []
  | Call a :: evs => a :: calls_of evs
  | _ :: evs => calls_of evs
  end.

(** The left fold of [reduceArgs], from [undefined], over calls given
    newest first: the oldest call is folded first. *)
Definition payload_of (cs : list (Z * A)) : option T :=
  fold_left reduceArgs (rev (map snd cs)) None.

(** Debouncing with cool-down [W]: whenever the executor runs, every call
    since its previous run is at least [W] ms old, and the value it gets
    is the fold of exactly those calls. *)
Definition trailing_debounce (W : Z) l : Prop :=
  forall newer t param seen older,
    l = newer ++ ObsExec t param seen :: older ->
    Some param = payload_of (calls_since_exec older) /\
    Forall (fun c => fst c + W <= t) (calls_since_exec older).

(** The same, entry by entry. *)
Fixpoint debounced (W : Z) l : Prop :=
  match l with
  | [] => True
  | ObsCall _ _ :: l => debounced W l
  | ObsExec t param _ :: l =>
      Some param = payload_of (calls_since_exec l) /\
      Forall (fun c => fst c + W <= t) (calls_since_exec l) /\
      debounced W l
  end.

(** Consecutive runs of the executor are at least [ms] apart. *)
Fixpoint spaced (ms : Z) (es : list (Z * T)) : Prop :=
  match es with
  | [] => True
  | (t2, _) :: rest =>
      match rest with
      | [] => True
      | (t1, _) :: _ => t1 + ms <= t2
      end /\ spaced ms rest
  end.

Definition last_execution l : option Z :=
  match executions l with
  | [] => None
  | (t, _) :: _ => Some t
  end.

(** Every pending timer is one of the two the closure remembers. *)
Definition timers_owned w : Prop :=
  forall i tm, timers w !! i = Some tm ->
    (callback tm = HandleBurstEnd /\ burstTimeoutId (vars w) = Some i) \/
    (callback tm = HandleDelayEnd /\ delayTimeoutId (vars w) = Some i).

(** What a run of a pure debouncer maintains. *)
Definition debounce_inv (W : Z) w : Prop :=
  delayTimeoutId (vars w) = None /\
  preparedData (vars w) = payload_of (calls_since_exec (log w)) /\
  Forall (fun c => fst c <= now w) (calls_since_exec (log w)) /\
  (forall i tm, timers w !! i = Some tm ->
      burstTimeoutId (vars w) = Some i /\
      callback tm = HandleBurstEnd /\
      timeoutMs tm = W /\
      Forall (fun c => fst c <= armedAt tm) (calls_since_exec (log w))) /\
  debounced W (log w) /\
  (forall param, preparedData (vars w) = Some param ->
     exists id tm t a cs,
       burstTimeoutId (vars w) = Some id /\
       timers w !! id = Some tm /\
       calls_since_exec (log w) = (t, a) :: cs /\
       armedAt tm = t).

(** What a run without [flush] and [cancel] maintains when [delayMs] is
    set: a pending delay timer does not expire before the spacing is
    over, and once it is gone the spacing is over. *)
Definition delay_inv (ms : Z) w : Prop :=
  (forall i tm, timers w !! i = Some tm ->
      (callback tm = HandleBurstEnd /\ burstTimeoutId (vars w) = Some i) \/
      (callback tm = HandleDelayEnd /\ delayTimeoutId (vars w) = Some i /\
       forall te, last_execution (log w) = Some te -> te + ms <= deadline tm)) /\
  (delayTimeoutId (vars w) = None ->
   forall te, last_execution (log w) = Some te -> te + ms <= now w) /\
  spaced ms (executions (log w)).

(** What a run maintains when nothing can ever arm a timer. *)
Definition never_armed (acc : option T) w : Prop :=
  timers w = ∅ /\ nextId w = 0%nat /\
  burstTimeoutId (vars w) = None /\ delayTimeoutId (vars w) = None /\
  executions (log w) = [] /\
  preparedData (vars w) = acc.

(** Lines 199-227 of [call] on their own: what follows the start edge. *)
Definition armBurst (idle : bool) w : world A T :=
  match burstCoolDownMs policy with
  | None => w
  | Some cool =>
      if undefined (burstTimeoutId (vars w)) && negb idle then w
      else
        let w := clearTimeout (burstTimeoutId (vars w)) w in
        let start :=
          match burstStartTimestamp (vars w) with
          | Some s => s
          | None => Date_now w
          end in
        let w := with_vars (set_burstStartTimestamp (Some start)) w in
        let '(id, w) :=
          setTimeout HandleBurstEnd
            (burstRemainingMs policy cool (Date_now w) start) w in
        with_vars (set_burstTimeoutId (Some id)) w
  end.
End Specs.

(** ** Further specifications *)

Section MoreSpecs.
Context {A T : Type}.
Variable reduceArgs : option T -> A -> option T.
Variable policy : TimingPolicy.
Implicit Types (w : world A T) (l : list (obs A T)).

(** The timer table after [clearTimeout(o)]. *)
Definition clearOpt (o : option nat) (m : gmap nat timer) : gmap nat timer :=
  match o with
  | Some j => delete j m
  | None => m
  end.

(** The state [handleBurstEnd] reaches before it looks at the delay timer
    (lines 169-171). *)
Definition burstCleared w : world A T :=
  {| now := now w; nextId := nextId w;
     timers := clearOpt (burstTimeoutId (vars w)) (timers w);
     vars := {| burstTimeoutId := None;
                delayTimeoutId := delayTimeoutId (vars w);
                preparedData := preparedData (vars w);
                burstStartTimestamp := None |};
     log := log w |}.

(** The state [handleDelayEnd] reaches before it looks at the burst timer
    (lines 153-154). *)
Definition delayCleared w : world A T :=
  {| now := now w; nextId := nextId w;
     timers := clearOpt (delayTimeoutId (vars w)) (timers w);
     vars := {| burstTimeoutId := burstTimeoutId (vars w);
                delayTimeoutId := None;
                preparedData := preparedData (vars w);
                burstStartTimestamp := burstStartTimestamp (vars w) |};
     log := log w |}.

(** Timer ids are fresh, and an id the closure remembers names a pending
    timer with the matching callback. *)
Definition ids_live w : Prop :=
  (forall i tm, timers w !! i = Some tm -> (i < nextId w)%nat) /\
  (forall i, burstTimeoutId (vars w) = Some i ->
     exists tm, timers w !! i = Some tm /\ callback tm = HandleBurstEnd) /\
  (forall i, delayTimeoutId (vars w) = Some i ->
     exists tm, timers w !! i = Some tm /\ callback tm = HandleDelayEnd).

(** The burst start is recorded exactly while a burst timer is. *)
Definition burst_start_tracked w : Prop :=
  burstStartTimestamp (vars w) = None <-> burstTimeoutId (vars w) = None.

(** A pending burst timer was armed with the delay of lines 217-225,
    computed from the burst start the closure still holds. *)
Definition burst_timer_exact (maxMs : Z) w : Prop :=
  forall i tm,
    timers w !! i = Some tm -> callback tm = HandleBurstEnd ->
    exists s cool,
      burstStartTimestamp (vars w) = Some s /\
      burstCoolDownMs policy = Some cool /\
      timeoutMs tm = Z.min cool (maxMs - (armedAt tm - s)).

(** An idle funnel holds no payload. *)
Definition idle_is_empty w : Prop :=
  isIdle w = true -> preparedData (vars w) = None.


(** Which steps may run the executor, and what the timer table must have
    looked like. *)
Definition moratorium_clear (ev : event A) w : Prop :=
  match ev with
  | Call _ => timers w = ∅
  | Fire id => forall j, j <> id -> timers w !! j = None
  | Flush => True
  | Cancel | Advance _ => False
  end.
End MoreSpecs.

(** ** Delivery *)

Section Delivery.
Context {A T : Type}.
Variable reduceArgs : option T -> A -> option T.
Implicit Types (w : world A T) (l : list (obs A T)).

(** A script without [cancel]. *)
Definition not_cancel (ev : event A) : bool :=
  match ev with
  | Cancel => false
  | _ => true
  end.

(** Whenever the executor ran, it was handed the fold of the calls made
    since it ran before. *)
Fixpoint folded_log l : Prop :=
  match l with
  | [] => True
  | ObsCall _ _ :: l => folded_log l
  | ObsExec _ param _ :: l =>
      Some param = payload_of reduceArgs (calls_since_exec l) /\ folded_log l
  end.

(** The payload is the fold of the calls the executor has not seen. *)
Definition payload_tracks_calls w : Prop :=
  preparedData (vars w) = payload_of reduceArgs (calls_since_exec (log w)) /\
  folded_log (log w).
End Delivery.

(** ** The debouncer built on the funnel (the test suite's
       [debounceWithCachedValue]) *)

(** The options object; every field may be left out. *)
Record DebounceOptions := {
  leading : option bool;
  trailing : option bool;
  maxWait : option Z;
}.

Section CachedDebouncer.
Context {A R : Type}.
Variable func : A -> R.
Variable wait : Z.
Variable options : DebounceOptions.

(** [leading = false] and [trailing = true] by default. *)
Definition leadingOrDefault : bool :=
  match leading options with Some v => v | None => false end.
Definition trailingOrDefault : bool :=
  match trailing options with Some v => v | None => true end.

(** The policy handed to [funnel]. *)
Definition debouncePolicy : TimingPolicy :=
  {| invokedAt :=
       Some (if trailingOrDefault
             then (if leadingOrDefault then AtBoth else AtEnd)
             else AtStart);
     burstCoolDownMs := Some wait;
     maxBurstDurationMs := maxWait options;
     delayMs := None |}.

(** [(_, ...args) => args]: the arguments of the last call. *)
Definition keepArgs (_ : option A) (args : A) : option A := Some args.

(** The executor stores [func(...args)] in [cachedValue]; so the cached
    value is [func] of what the executor was last handed, and [undefined]
    while it has not run. *)
Definition cachedValue (w : world A A) : option R :=
  match executions (log w) with
  | [] => None
  | (_, args) :: _ => Some (func args)
  end.

(** [call]: forward to the funnel, then read the cache. *)
Definition debouncedCall (args : A) (w : world A A) : option R * world A A :=
  let w := call keepArgs debouncePolicy args w in
  (cachedValue w, w).

(** [flush]: forward to the funnel, then read the cache. *)
Definition debouncedFlush (w : world A A) : option R * world A A :=
  let w := flush debouncePolicy w in
  (cachedValue w, w).
End CachedDebouncer.

(** ** The evaluator of [mapWithFeedback] *)

(** What a lazy evaluator returns for one item. *)
Record LazyResult (U : Type) := {
  done : bool;
  hasNext : bool;
  next : U;
}.
Arguments done {U} _.
Arguments hasNext {U} _.
Arguments next {U} _.

Section MapWithFeedback.
Context {E U : Type}.
Variable reducer : U -> E -> nat -> list E -> U.

(** One call of the closure [lazyImplementation] returns: the closure
    variable [previousValue] goes in and comes out. *)
Definition lazyEvaluator (previousValue : U) (currentValue : E) (index : nat)
    (data : list E) : LazyResult U * U :=
  let previousValue := reducer previousValue currentValue index data in
  ({| done := false; hasNext := true; next := previousValue |}, previousValue).

(** The evaluator called on [items], which sit at [index], [index + 1], ...
    of [data], one after the other. *)
Fixpoint evaluateFrom (data : list E) (previousValue : U) (index : nat)
    (items : list E) : list (LazyResult U) :=
  match items with
  | [] => []
  | x :: items =>
      let '(r, previousValue) := lazyEvaluator previousValue x index data in
      r :: evaluateFrom data previousValue (S index) items
  end.

(** The evaluator of [lazyImplementation(reducer, initialValue)] called once
    per element of [data], in order. *)
Definition evaluateAll (initialValue : U) (data : list E) : list (LazyResult U) :=
  evaluateFrom data initialValue 0%nat data.

(** The left fold that passes the index and the whole array along. *)
Fixpoint foldFrom (data : list E) (acc : U) (index : nat) (items : list E) : U :=
  match items with
  | [] => acc
  | x :: items => foldFrom data (reducer acc x index data) (S index) items
  end.
End MapWithFeedback.

(** ** Fixtures: reducers, policies and scripts of the test suite *)

(** [(_, value) => value] over strings: the last call wins. *)
Definition lastValue (_ : option string) (a : string) : option string := Some a.

(** The same reducer where a call may pass [undefined]. *)
Definition lastValueOrUndefined (_ : option string) (a : option string)
  : option string := a.

Definition policy_of (edge : option InvokedAt) (cool maxBurst delay : option Z)
  : TimingPolicy :=
  {| invokedAt := edge; burstCoolDownMs := cool;
     maxBurstDurationMs := maxBurst; delayMs := delay |}.

(** [{ burstCoolDownMs: 32 }]: the debouncer of the first test. *)
Definition debouncer32 : TimingPolicy := policy_of None (Some 32) None None.

(** [{ burstCoolDownMs: 10, delayMs: 10 }] *)
Definition debouncer10_delay10 : TimingPolicy :=
  policy_of None (Some 10) None (Some 10).

(** [{ burstCoolDownMs: 10, delayMs: 100 }] *)
Definition debouncer10_delay100 : TimingPolicy :=
  policy_of None (Some 10) None (Some 100).

(** [{ invokedAt: "both", delayMs: 100 }] *)
Definition throttle100_both : TimingPolicy :=
  policy_of (Some AtBoth) None None (Some 100).

(** [{ invokedAt: "start" }] *)
Definition leading_only : TimingPolicy :=
  policy_of (Some AtStart) None None None.

(** [{ delayMs: 50 }] *)
Definition delay50_only : TimingPolicy := policy_of None None None (Some 50).

(** [{ burstCoolDownMs: 0, delayMs: 0 }] *)
Definition zero_timeouts : TimingPolicy := policy_of None (Some 0) None (Some 0).

(** [{ burstCoolDownMs: 20, maxBurstDurationMs: 50 }] *)
Definition debouncer20_max50 : TimingPolicy :=
  policy_of None (Some 20) (Some 50) None.

(** Three calls in a row, a long pause, the burst timer, one more call. *)
Definition script_debounce : list (event string) :=
  [Call "a"; Call "b"; Call "c"; Advance 128; Fire 2%nat; Call "d"]%string.

(** A call, the burst timer on time, a call 5 ms into the delay, the delay
    timer on time. *)
Definition script_call_during_delay : list (event string) :=
  [Call "a"; Advance 10; Fire 0%nat; Advance 5; Call "b"; Advance 5;
   Fire 1%nat]%string.

(** Two calls 1 ms apart, then [flush] 1 ms later. *)
Definition script_flush_during_delay : list (event string) :=
  [Call "a"; Advance 1; Call "b"; Advance 1; Flush]%string.

(** Two calls 1 ms apart, then the delay timer twice, on time. *)
Definition script_throttle : list (event string) :=
  [Call "a"; Advance 1; Call "b"; Advance 99; Fire 0%nat; Advance 100;
   Fire 1%nat]%string.

(** A call, the burst timer on time, a call during the delay, [flush]. *)
Definition script_flush_after_execution : list (event string) :=
  [Call "a"; Advance 10; Fire 0%nat; Advance 10; Call "b"; Advance 10;
   Flush]%string.

(** Two calls a second apart. *)
Definition script_two_calls : list (event string) :=
  [Call "a"; Advance 1000; Call "b"]%string.

(** A funnel 45 ms into a burst that began at 0: burst timer 2 pending. *)
Definition mid_burst : world string string :=
  {| now := 45; nextId := 3%nat;
     timers := {[ 2%nat := {| callback := HandleBurstEnd; armedAt := 30;
                              timeoutMs := 20 |} ]};
     vars := {| burstTimeoutId := Some 2%nat; delayTimeoutId := None;
                preparedData := Some "c"%string;
                burstStartTimestamp := Some 0 |};
     log := [] |}.

(** A funnel that ran its executor at 10 and waits for delay timer 1. *)
Definition mid_delay : world string string :=
  {| now := 20; nextId := 2%nat;
     timers := {[ 1%nat := {| callback := HandleDelayEnd; armedAt := 10;
                              timeoutMs := 100 |} ]};
     vars := {| burstTimeoutId := None; delayTimeoutId := Some 1%nat;
                preparedData := None; burstStartTimestamp := None |};
     log := [] |}.

(** [{ invokedAt: "start", burstCoolDownMs: 32 }]: the leading debouncer of
    the test suite. *)
Definition leading32 : TimingPolicy := policy_of (Some AtStart) (Some 32) None None.

(** [identityImplementation]: the first argument, whatever else is
    passed. *)
Definition identityImplementation {V X : Type} (value : V) (_args : list X) : V :=
  value.

(** [identity()] applied to the one argument of a debounced call. *)
Definition identityOfCall (args : string) : string :=
  identityImplementation args (@nil string).

(** [{ leading: true, trailing: false }] *)
Definition leading_options : DebounceOptions :=
  {| leading := Some true; trailing := Some false; maxWait := None |}.

(** No options: trailing only. *)
Definition default_options : DebounceOptions :=
  {| leading := None; trailing := None; maxWait := None |}.

(** One call and a pause as long as the cool-down. *)
Definition script_one_burst : list (event string) :=
  [Call "a"; Advance 32]%string.

(** One burst from its call to the end of its timer. *)
Definition script_burst_done : list (event string) :=
  [Call "a"; Advance 32; Fire 0%nat]%string.

(** Four calls 15 ms apart: a burst that is cut by the cap. *)
Definition script_burst_extended : list (event string) :=
  [Call "a"; Advance 15; Call "b"; Advance 15; Call "c"; Advance 15;
   Call "d"]%string.


(** [{}]: every field left out. *)
Definition no_policy : TimingPolicy := policy_of None None None None.

(** A single call. *)
Definition script_single_call : list (event string) := [Call "a"]%string.

(** ** Facts about the funnel *)

Section FunnelFacts.
Context {A T : Type}.
Variable reduceArgs : option T -> A -> option T.
Variable policy : TimingPolicy.
Implicit Types (w : world A T) (a : A).

Local Abbreviation edge := (invokedAtOrDefault policy).

(** Evaluate the methods in hypothesis [H] on a world given by its
    fields, using what is known of the policy. *)
Local Ltac eval_funnel H :=
  unfold call, cancel, flush, handleDelayEnd, handleBurstEnd, invoke,
    burstRemainingMs, isIdle in H;
  repeat match goal with E : _ policy = _ |- _ => rewrite E in H end;
  cbv [execute setTimeout clearTimeout record with_vars
    with_timers set_burstTimeoutId set_delayTimeoutId set_preparedData
    set_burstStartTimestamp Date_now
    undefined invokedAt_eqb andb orb negb
    now nextId timers vars log
    burstTimeoutId delayTimeoutId preparedData burstStartTimestamp] in H.

Local Ltac open_world w :=
  let n := fresh "n" in let k := fresh "k" in let tms := fresh "tms" in
  let b := fresh "b" in let d := fresh "d" in let p := fresh "p" in
  let s := fresh "s" in let l := fresh "l" in
  destruct w as [n k tms [b d p s] l]; cbn [now nextId timers vars log
    burstTimeoutId delayTimeoutId preparedData burstStartTimestamp] in *.

Local Ltac name_result w' f :=
  match goal with
  | w' := ?body |- _ =>
      let H := fresh "Hw'" in
      assert (H : w' = body) by reflexivity; clearbody w'; f H; subst w'
  end.

Local Ltac fields :=
  cbn [now nextId timers vars log burstTimeoutId delayTimeoutId
       preparedData burstStartTimestamp executions] in *.

(** What is still pending after [clearTimeout(o)] was pending before and
    is not [o]. *)
Lemma lookup_after_clear (o : option nat) (tms : gmap nat timer) i tm :
  match o with Some j => delete j tms | None => tms end !! i = Some tm ->
  tms !! i = Some tm /\ o <> Some i.
Proof.
  destruct o as [j|]; [| intros Hl; split; [exact Hl | discriminate]].
  intros [Hne Hl]%lookup_delete_Some. split; [exact Hl | congruence].
Qed.

(** C8: a call that finds only the delay timer live changes nothing but,
    possibly, the pending payload. *)
Theorem call_during_delay_only a w cool j :
  burstCoolDownMs policy = Some cool ->
  burstTimeoutId (vars w) = None ->
  delayTimeoutId (vars w) = Some j ->
  let w' := call reduceArgs policy a w in
  timers w' = timers w /\ nextId w' = nextId w /\ now w' = now w /\
  burstTimeoutId (vars w') = None /\
  delayTimeoutId (vars w') = Some j /\
  burstStartTimestamp (vars w') = burstStartTimestamp (vars w) /\
  log w' = log w /\
  preparedData (vars w') =
    (if invokedAt_eqb edge AtStart then preparedData (vars w)
     else reduceArgs (preparedData (vars w)) a).
Proof.
  intros Hcool Hb Hd w'. open_world w. subst.
  destruct edge eqn:He; name_result w' ltac:(fun H => eval_funnel H);
    fields; auto 10.
Qed.

(** C2: the arguments of a call are folded into the pending payload
    exactly when the policy is not ["start"] or the funnel was idle when
    the call began (a start edge hands the folded value to the executor at
    once); a ["start"] funnel that is active leaves the payload alone. *)
Theorem call_fold_rule a w :
  let folded := reduceArgs (preparedData (vars w)) a in
  let w' := call reduceArgs policy a w in
  (edge <> AtStart \/ isIdle w = true ->
     if negb (invokedAt_eqb edge AtEnd) && isIdle w
     then preparedData (vars w') = None /\
          executions (log w') =
            match folded with
            | Some param => (now w, param) :: executions (log w)
            | None => executions (log w)
            end
     else preparedData (vars w') = folded /\ log w' = log w)
  /\ (edge = AtStart -> isIdle w = false ->
        preparedData (vars w') = preparedData (vars w) /\ log w' = log w).
Proof.
  intros folded w'. subst folded. open_world w.
  destruct (burstCoolDownMs policy) eqn:Hcool, (delayMs policy) eqn:Hdelay,
           edge eqn:He, b, d;
    name_result w' ltac:(fun H => eval_funnel H);
    (split; [intros [Hne | Hidle] | intros He' Hidle]);
    try congruence; try discriminate; cbn in *;
    destruct (reduceArgs p a); fields; auto.
Qed.

(** C5: under the ["end"] policy a call never runs the executor, whatever
    the durations are; the executor only ever runs from a timer callback
    or from [flush]. *)
Theorem end_edge_not_in_call_frame :
  edge = AtEnd ->
  (forall a w, log (call reduceArgs policy a w) = log w) /\
  (forall ev w w',
      step reduceArgs policy ev w = Some w' ->
      executions (log w') <> executions (log w) ->
      ev = Flush \/ exists id, ev = Fire id).
Proof.
  intros He.
  assert (Hcall : forall a w, log (call reduceArgs policy a w) = log w).
  { intros a w. open_world w.
    set (w' := call _ _ _ _).
    destruct (burstCoolDownMs policy) eqn:Hcool, b, d;
      name_result w' ltac:(fun H => eval_funnel H); reflexivity. }
  split; [exact Hcall |].
  intros [a | | | id | ms] w w' Hstep Hne; cbn in Hstep.
  - exfalso. apply Hne. injection Hstep as <-. now rewrite Hcall.
  - exfalso. apply Hne. injection Hstep as <-. open_world w.
    destruct b, d; reflexivity.
  - now left.
  - right. now exists id.
  - exfalso. apply Hne. destruct (0 <=? ms); [|discriminate].
    now injection Hstep as <-.
Qed.

(** C3, as the code has it: a call that finds a ["start"] or ["both"]
    funnel idle runs the executor inside the call whenever the folded
    value is not [undefined]; the executor sees an empty payload, and the
    delay timer is armed when [delayMs] is set. *)
Theorem start_edge_executes a w param :
  edge = AtStart \/ edge = AtBoth ->
  isIdle w = true ->
  reduceArgs (preparedData (vars w)) a = Some param ->
  let w' := call reduceArgs policy a w in
  (exists seen,
      log w' = ObsExec (now w) param seen :: log w /\
      preparedData seen = None) /\
  preparedData (vars w') = None /\
  match delayMs policy with
  | Some ms =>
      exists id,
        delayTimeoutId (vars w') = Some id /\
        timers w' !! id =
          Some {| callback := HandleDelayEnd; armedAt := now w;
                  timeoutMs := ms |}
  | None => delayTimeoutId (vars w') = None
  end.
Proof.
  intros He Hidle Hr w'. open_world w.
  destruct b, d; try discriminate Hidle. clear Hidle.
  destruct (burstCoolDownMs policy) eqn:Hcool, (delayMs policy) eqn:Hdelay;
    destruct He as [He | He];
    name_result w' ltac:(fun H => eval_funnel H; rewrite Hr in H);
    fields; (split; [eexists; split; reflexivity |]); (split; [reflexivity |]);
    try reflexivity; exists k; (split; [reflexivity |]).
  all: rewrite ?(lookup_insert_ne _ (S k) k) by lia;
    apply lookup_insert_eq.
Qed.

(** C7: a call that reaches the arming step drops the old burst timer,
    keeps a burst start that is already recorded (and records the current
    instant otherwise), and arms a timer for [burstCoolDownMs], capped by
    what is left of [maxBurstDurationMs] when that is set. *)
Theorem burst_arming a w cool :
  burstCoolDownMs policy = Some cool ->
  burstTimeoutId (vars w) <> None \/ isIdle w = true ->
  let w' := call reduceArgs policy a w in
  let start :=
    match burstStartTimestamp (vars w) with
    | Some s => s
    | None => now w
    end in
  burstStartTimestamp (vars w') = Some start /\
  exists id,
    burstTimeoutId (vars w') = Some id /\
    timers w' !! id =
      Some {| callback := HandleBurstEnd; armedAt := now w;
              timeoutMs :=
                match maxBurstDurationMs policy with
                | None => cool
                | Some maxMs => Z.min cool (maxMs - (now w - start))
                end |} /\
    (forall old,
        burstTimeoutId (vars w) = Some old -> old <> id ->
        timers w' !! old = None).
Proof.
  intros Hcool Hreach w' start. subst start. open_world w.
  assert (Hb : b <> None \/ (b = None /\ d = None)).
  { destruct Hreach as [?|Hidle]; [now left | right].
    destruct b, d; try discriminate; split; reflexivity. }
  clear Hreach.
  destruct b as [ob|].
  - (* an active burst is extended *)
    destruct edge eqn:He, d, s;
      name_result w' ltac:(fun H => eval_funnel H); fields;
      (split; [reflexivity |]); eexists; (split; [reflexivity |]);
      (split; [apply lookup_insert_eq |]);
      intros old Hold Hne; injection Hold as <-;
      rewrite lookup_insert_ne by congruence; apply lookup_delete_eq.
  - (* an idle funnel starts a burst *)
    destruct Hb as [Hb | [_ ->]]; [congruence |].
    destruct edge eqn:He, (delayMs policy) eqn:Hdelay, s;
      name_result w' ltac:(fun H => eval_funnel H);
      try (destruct (reduceArgs p a); fields);
      fields; (split; [reflexivity |]); eexists; (split; [reflexivity |]);
      (split; [apply lookup_insert_eq |]); intros old Hold; discriminate Hold.
Qed.

(** ** Facts about runs *)

Lemma call_end_without_burst a w :
  edge = AtEnd ->
  burstCoolDownMs policy = None ->
  call reduceArgs policy a w =
    with_vars (set_preparedData (reduceArgs (preparedData (vars w)) a)) w.
Proof.
  intros He Hcool. open_world w.
  set (w' := call _ _ _ _).
  destruct b, d; name_result w' ltac:(fun H => eval_funnel H); reflexivity.
Qed.

Lemma never_armed_run evs :
  edge = AtEnd ->
  burstCoolDownMs policy = None ->
  forall w acc w',
    never_armed acc w ->
    forallb call_or_timer evs = true ->
    run reduceArgs policy evs w = Some w' ->
    never_armed (fold_left reduceArgs (calls_of evs) acc) w'.
Proof.
  intros He Hcool.
  induction evs as [|ev evs IH]; intros w acc w' Hinv Hok Hrun; cbn in *.
  - now injection Hrun as <-.
  - apply andb_prop in Hok as [Hev Hok].
    destruct Hinv as (Htm & Hid & Hb & Hd & Hex & Hp).
    destruct ev as [a | | | id | ms]; try discriminate Hev; cbn in Hrun.
    + rewrite call_end_without_burst in Hrun by assumption.
      eapply IH; [| exact Hok | exact Hrun].
      unfold never_armed; cbn. rewrite Hp. auto 10.
    + rewrite Htm, lookup_empty in Hrun. discriminate Hrun.
    + destruct (0 <=? ms); [| discriminate Hrun].
      eapply IH; [| exact Hok | exact Hrun].
      unfold never_armed; cbn. auto 10.
Qed.

(** Calls and waiting are always possible: a script made of them runs to
    its end from any state. *)
Lemma run_calls_defined evs :
  forallb call_or_wait evs = true ->
  forall w, exists w', run reduceArgs policy evs w = Some w'.
Proof.
  induction evs as [|ev evs IH]; intros Hok w; cbn in *.
  - now exists w.
  - apply andb_prop in Hok as [Hev Hok].
    destruct ev as [a | | | id | ms]; try discriminate Hev; cbn.
    + apply IH, Hok.
    + cbn in Hev. rewrite Hev. apply IH, Hok.
Qed.

(** C10: with the ["end"] policy and no [burstCoolDownMs], calls never run
    the executor and never arm a timer, whatever [delayMs] is: the funnel
    stays idle and the payload is the fold of every call so far. *)
Theorem end_without_burst_never_fires evs t0 w :
  edge = AtEnd ->
  burstCoolDownMs policy = None ->
  forallb call_or_timer evs = true ->
  run reduceArgs policy evs (init t0) = Some w ->
  executions (log w) = [] /\
  timers w = ∅ /\
  nextId w = 0%nat /\
  isIdle w = true /\
  preparedData (vars w) = fold_left reduceArgs (calls_of evs) None.
Proof.
  intros He Hcool Hok Hrun.
  destruct (never_armed_run evs He Hcool (init t0) None w)
    as (Htm & Hid & Hb & Hd & Hex & Hp); [| assumption | assumption |].
  - unfold never_armed, init; cbn. auto 10.
  - unfold isIdle. rewrite Hb, Hd. auto.
Qed.

(** *** Spacing of executions *)

Lemma call_phases a w :
  call reduceArgs policy a w =
    armBurst policy (isIdle w)
      (let wf :=
         if negb (invokedAt_eqb edge AtStart) || isIdle w
         then with_vars
                (set_preparedData (reduceArgs (preparedData (vars w)) a)) w
         else w in
       if negb (invokedAt_eqb edge AtEnd) && isIdle w
       then invoke policy wf else wf).
Proof. reflexivity. Qed.

Local Ltac open_inv :=
  unfold delay_inv, last_execution in *; fields.

Lemma delay_inv_payload ms x w :
  delay_inv ms w -> delay_inv ms (with_vars (set_preparedData x) w).
Proof. intros H. open_world w. exact H. Qed.

Lemma delay_inv_record_call ms t a w :
  delay_inv ms w -> delay_inv ms (record (ObsCall t a) w).
Proof. intros H. open_world w. exact H. Qed.

Lemma delay_inv_advance ms d w :
  0 <= d -> delay_inv ms w -> delay_inv ms (advance d w).
Proof.
  intros Hd (Htm & Hgone & Hsp). open_world w.
  unfold delay_inv, advance; fields.
  split; [exact Htm | split; [| exact Hsp]].
  intros Hnone te Hte. specialize (Hgone Hnone te Hte). lia.
Qed.

Lemma delay_inv_remove ms id w :
  delay_inv ms w -> delay_inv ms (with_timers (delete id) w).
Proof.
  intros (Htm & Hgone & Hsp). open_world w.
  unfold delay_inv, with_timers; fields.
  split; [| split; assumption].
  intros i tm [_ Hl]%lookup_delete_Some. now apply Htm.
Qed.

Lemma delay_inv_invoke ms w :
  delayMs policy = Some ms ->
  delay_inv ms w ->
  delayTimeoutId (vars w) = None ->
  delay_inv ms (invoke policy w).
Proof.
  intros Hdelay Hinv Hd. open_world w. subst d.
  unfold invoke; fields. destruct p as [param|]; [| exact Hinv].
  rewrite Hdelay.
  cbv [execute setTimeout record with_vars set_preparedData
       set_delayTimeoutId now nextId timers vars log].
  destruct Hinv as (Htm & Hgone & Hsp). open_inv.
  split; [| split].
  - intros i tm [[<- <-] | [Hne Hl]]%lookup_insert_Some.
    + right. split; [reflexivity | split; [reflexivity |]].
      intros te [= <-]. unfold deadline; cbn. lia.
    + destruct (Htm i tm Hl) as [[? ?] | (_ & Hd & _)];
        [left; auto | discriminate Hd].
  - discriminate.
  - specialize (Hgone eq_refl).
    destruct (executions l) as [|[t1 p1] es]; cbn; [auto |].
    split; [apply Hgone; reflexivity | exact Hsp].
Qed.

Lemma delay_inv_armBurst ms idle w :
  delay_inv ms w -> delay_inv ms (armBurst policy idle w).
Proof.
  intros Hinv. unfold armBurst.
  destruct (burstCoolDownMs policy) as [cool|]; [| exact Hinv].
  destruct (undefined (burstTimeoutId (vars w)) && negb idle);
    [exact Hinv |].
  open_world w. destruct Hinv as (Htm & Hgone & Hsp).
  set (w0 := {| now := n; nextId := k; timers := tms;
                vars := {| burstTimeoutId := b; delayTimeoutId := d;
                           preparedData := p; burstStartTimestamp := s |};
                log := l |}).
  assert (Hkeep : clearTimeout b w0 =
            with_timers
              (fun m => match b with Some o => delete o m | None => m end) w0)
    by (destruct b; reflexivity).
  rewrite Hkeep. subst w0.
  clear Hkeep.
  cbv [setTimeout with_timers with_vars set_burstStartTimestamp
       set_burstTimeoutId Date_now now nextId timers vars log
       burstTimeoutId delayTimeoutId preparedData burstStartTimestamp].
  open_inv. split; [| split; assumption].
  intros i tm [[<- <-] | [Hne Hl]]%lookup_insert_Some.
  - left. split; reflexivity.
  - right.
    apply lookup_after_clear in Hl as [Hl' Hb].
    destruct (Htm i tm Hl') as [[_ Hbi] | Hdl]; [contradiction | exact Hdl].
Qed.

Lemma delay_inv_call ms a w :
  delayMs policy = Some ms ->
  delay_inv ms w -> delay_inv ms (call reduceArgs policy a w).
Proof.
  intros Hdelay Hinv. rewrite call_phases. apply delay_inv_armBurst.
  cbv zeta.
  assert (Hwf : forall c : bool,
             delay_inv ms
               (if c
                then with_vars
                       (set_preparedData
                          (reduceArgs (preparedData (vars w)) a)) w
                else w)).
  { intros []; [now apply delay_inv_payload | exact Hinv]. }
  destruct (isIdle w) eqn:Hidle; rewrite ?andb_false_r; [| apply Hwf].
  destruct (negb (invokedAt_eqb edge AtEnd)); cbn [andb]; [| apply Hwf].
  apply delay_inv_invoke; [assumption | apply Hwf |].
  unfold isIdle in Hidle. apply andb_prop in Hidle as [_ Hd].
  rewrite orb_true_r. open_world w. now destruct d.
Qed.

Lemma delay_inv_handleBurstEnd ms w :
  delayMs policy = Some ms ->
  delay_inv ms w -> delay_inv ms (handleBurstEnd policy w).
Proof.
  intros Hdelay Hinv. open_world w.
  set (w1 := {| now := n; nextId := k;
                timers := match b with Some o => delete o tms | None => tms end;
                vars := {| burstTimeoutId := None; delayTimeoutId := d;
                           preparedData := p; burstStartTimestamp := None |};
                log := l |}).
  assert (Heq : handleBurstEnd policy
                  {| now := n; nextId := k; timers := tms;
                     vars := {| burstTimeoutId := b; delayTimeoutId := d;
                                preparedData := p; burstStartTimestamp := s |};
                     log := l |} =
                if undefined d then invoke policy w1 else w1)
    by (destruct b; reflexivity).
  rewrite Heq. clear Heq.
  assert (Hw1 : delay_inv ms w1).
  { destruct Hinv as (Htm & Hgone & Hsp). subst w1. open_inv.
    split; [| split; assumption].
    intros i tm Hl. right.
    apply lookup_after_clear in Hl as [Hl' Hb].
    destruct (Htm i tm Hl') as [[_ Hbi] | Hdl]; [contradiction | exact Hdl]. }
  destruct d; cbn [undefined]; [exact Hw1 |].
  now apply delay_inv_invoke.
Qed.

Lemma delay_inv_handleDelayEnd ms w :
  delayMs policy = Some ms ->
  delay_inv ms w ->
  (forall te, last_execution (log w) = Some te -> te + ms <= now w) ->
  delay_inv ms (handleDelayEnd policy w).
Proof.
  intros Hdelay Hinv Hover. open_world w.
  set (w1 := {| now := n; nextId := k;
                timers := match d with Some o => delete o tms | None => tms end;
                vars := {| burstTimeoutId := b; delayTimeoutId := None;
                           preparedData := p; burstStartTimestamp := s |};
                log := l |}).
  assert (Heq : handleDelayEnd policy
                  {| now := n; nextId := k; timers := tms;
                     vars := {| burstTimeoutId := b; delayTimeoutId := d;
                                preparedData := p; burstStartTimestamp := s |};
                     log := l |} =
                if undefined b then invoke policy w1 else w1)
    by (destruct d; reflexivity).
  rewrite Heq. clear Heq.
  assert (Hw1 : delay_inv ms w1).
  { destruct Hinv as (Htm & Hgone & Hsp). subst w1. open_inv.
    split; [| split; [intros _; exact Hover | assumption]].
    intros i tm Hl. left.
    apply lookup_after_clear in Hl as [Hl' Hd].
    destruct (Htm i tm Hl') as [Hbl | (_ & Hdi & _)];
      [exact Hbl | contradiction]. }
  destruct b; cbn [undefined]; [exact Hw1 |].
  now apply delay_inv_invoke.
Qed.

Lemma delay_inv_fire ms id tm w :
  delayMs policy = Some ms ->
  delay_inv ms w ->
  timers w !! id = Some tm ->
  deadline tm <= now w ->
  delay_inv ms (run_handler policy (callback tm) (with_timers (delete id) w)).
Proof.
  intros Hdelay Hinv Hl Hdue.
  pose proof (delay_inv_remove ms id w Hinv) as Hrem.
  destruct (callback tm) eqn:Hcb; cbn [run_handler].
  - apply delay_inv_handleDelayEnd; [assumption | assumption |].
    destruct Hinv as (Htm & _ & _).
    destruct (Htm id tm Hl) as [[Hb _] | (_ & _ & Hte)]; [congruence |].
    intros te Hlast. open_world w. unfold with_timers in *; fields.
    specialize (Hte te Hlast). lia.
  - now apply delay_inv_handleBurstEnd.
Qed.

Lemma delay_inv_step ms ev w w' :
  delayMs policy = Some ms ->
  call_or_timer ev = true ->
  delay_inv ms w ->
  step reduceArgs policy ev w = Some w' ->
  delay_inv ms w'.
Proof.
  intros Hdelay Hev Hinv Hstep.
  destruct ev as [a | | | id | d]; try discriminate Hev; cbn in Hstep.
  - injection Hstep as <-.
    now apply delay_inv_call, delay_inv_record_call.
  - destruct (timers w !! id) as [tm|] eqn:Hl; [| discriminate Hstep].
    destruct (deadline tm <=? now w) eqn:Hdue; [| discriminate Hstep].
    injection Hstep as <-. apply delay_inv_fire; [assumption.. |].
    now apply Z.leb_le.
  - destruct (0 <=? d) eqn:Hd; [| discriminate Hstep].
    injection Hstep as <-. apply delay_inv_advance; [| assumption].
    now apply Z.leb_le.
Qed.

Lemma delay_inv_run ms evs :
  delayMs policy = Some ms ->
  forall w w',
    forallb call_or_timer evs = true ->
    delay_inv ms w ->
    run reduceArgs policy evs w = Some w' ->
    delay_inv ms w'.
Proof.
  intros Hdelay.
  induction evs as [|ev evs IH]; intros w w' Hok Hinv Hrun; cbn in *.
  - now injection Hrun as <-.
  - apply andb_prop in Hok as [Hev Hok].
    destruct (step reduceArgs policy ev w) as [w1|] eqn:Hstep;
      [| discriminate Hrun].
    eapply IH; [exact Hok | | exact Hrun].
    eapply delay_inv_step; eassumption.
Qed.

Lemma delay_inv_init ms t0 : delay_inv ms (init t0 : world A T).
Proof.
  unfold delay_inv, init, last_execution; cbn.
  split; [| split; [discriminate | exact I]].
  intros i tm Hl. rewrite lookup_empty in Hl. discriminate Hl.
Qed.

(** C6, as the code has it: when [delayMs] is set, along any run made of
    calls, timer callbacks (on time or late) and passing time, two
    consecutive runs of the executor are at least [delayMs] apart. *)
Theorem delay_spaces_executions ms evs t0 w :
  delayMs policy = Some ms ->
  forallb call_or_timer evs = true ->
  run reduceArgs policy evs (init t0) = Some w ->
  spaced ms (executions (log w)).
Proof.
  intros Hdelay Hok Hrun.
  eapply delay_inv_run; [eassumption | exact Hok | | exact Hrun].
  apply delay_inv_init.
Qed.

(** *** Debouncing *)

Lemma payload_of_cons t a cs :
  payload_of reduceArgs ((t, a) :: cs) =
    reduceArgs (payload_of reduceArgs cs) a.
Proof.
  unfold payload_of. cbn [map rev snd]. now rewrite fold_left_app.
Qed.

Lemma debounced_trailing W l :
  debounced reduceArgs W l -> trailing_debounce reduceArgs W l.
Proof.
  intros Hdeb newer. revert l Hdeb.
  induction newer as [|o newer IH]; intros l Hdeb t param seen older ->.
  - destruct Hdeb as (Hp & Hold & _). now split.
  - destruct o as [tc a | te pe se]; cbn in Hdeb.
    + eapply IH; [exact Hdeb | reflexivity].
    + destruct Hdeb as (_ & _ & Hdeb). eapply IH; [exact Hdeb | reflexivity].
Qed.

Section PureDebounce.
Variable W : Z.
Hypothesis Hedge : edge = AtEnd.
Hypothesis Hcool : burstCoolDownMs policy = Some W.
Hypothesis Hmax : maxBurstDurationMs policy = None.
Hypothesis Hdelay : delayMs policy = None.

Lemma debounce_inv_call a w :
  debounce_inv reduceArgs W w ->
  debounce_inv reduceArgs W
    (call reduceArgs policy a (record (ObsCall (now w) a) w)).
Proof.
  intros (Hd & Hp & Hnow & Htm & Hdeb & _). open_world w. subst d.
  set (w' := call _ _ _ _).
  assert (Hall : Forall (fun c => fst c <= n) ((n, a) :: calls_since_exec l))
    by (constructor; [cbn; lia | exact Hnow]).
  destruct b as [ob|], s;
    name_result w' ltac:(fun H => eval_funnel H);
    unfold debounce_inv; fields; cbn [calls_since_exec debounced];
    (split; [reflexivity |]);
    (split; [now rewrite payload_of_cons, Hp |]);
    (split; [exact Hall |]);
    (split;
     [ intros i tm [[<- <-] | [Hne Hl]]%lookup_insert_Some;
       [ repeat (split; [reflexivity |]); exact Hall
       | exfalso; try apply lookup_delete_Some in Hl as [Hoi Hl];
         destruct (Htm i tm Hl) as [Hb _]; congruence ]
     | split; [exact Hdeb |];
       intros param _; do 5 eexists;
       (split; [reflexivity |]); (split; [apply lookup_insert_eq |]);
       split; reflexivity ]).
Qed.

Lemma debounce_inv_fire id tm w :
  debounce_inv reduceArgs W w ->
  timers w !! id = Some tm ->
  deadline tm <= now w ->
  debounce_inv reduceArgs W
    (run_handler policy (callback tm) (with_timers (delete id) w)).
Proof.
  intros (Hd & Hp & Hnow & Htm & Hdeb & _) Hl Hdue.
  destruct (Htm id tm Hl) as (Hb & Hcb & Hms & Harmed).
  rewrite Hcb. cbn [run_handler]. open_world w. subst d b.
  assert (Hnone : forall i tm',
             delete id (delete id tms) !! i = Some tm' -> False).
  { intros i tm' [Hne [_ Hi]%lookup_delete_Some]%lookup_delete_Some.
    destruct (Htm i tm' Hi) as [Hb _]. congruence. }
  set (w' := handleBurstEnd _ _).
  destruct p as [param|];
    name_result w' ltac:(fun H => unfold with_timers in H; eval_funnel H);
    unfold debounce_inv; fields; cbn [calls_since_exec debounced];
    (split; [reflexivity |]);
    (split; [first [reflexivity | exact Hp] |]);
    (split; [first [constructor | exact Hnow] |]);
    (split; [intros i tm' Hi; destruct (Hnone i tm' Hi) |]);
    (split; [| intros param' Hp'; discriminate Hp']);
    try exact Hdeb.
  split; [now rewrite Hp | split; [| exact Hdeb]].
  eapply Forall_impl; [exact Harmed |].
  intros c Hc. cbv beta in *. unfold deadline in Hdue. lia.
Qed.

Lemma debounce_inv_advance d w :
  0 <= d ->
  debounce_inv reduceArgs W w -> debounce_inv reduceArgs W (advance d w).
Proof.
  intros Hd0 (Hd & Hp & Hnow & Htm & Hdeb & Hguard). open_world w.
  unfold debounce_inv, advance; fields.
  split; [exact Hd |]. split; [exact Hp |].
  split; [| split; [exact Htm | split; [exact Hdeb | exact Hguard]]].
  eapply Forall_impl; [exact Hnow |]. intros c Hc. cbv beta in *. lia.
Qed.

Lemma debounce_inv_run evs :
  forall w w',
    forallb call_or_timer evs = true ->
    debounce_inv reduceArgs W w ->
    run reduceArgs policy evs w = Some w' ->
    debounce_inv reduceArgs W w'.
Proof.
  induction evs as [|ev evs IH]; intros w w' Hok Hinv Hrun; cbn in *.
  - now injection Hrun as <-.
  - apply andb_prop in Hok as [Hev Hok].
    destruct (step reduceArgs policy ev w) as [w1|] eqn:Hstep;
      [| discriminate Hrun].
    eapply IH; [exact Hok | | exact Hrun]. clear IH Hrun Hok.
    destruct ev as [a | | | id | d]; try discriminate Hev; cbn in Hstep.
    + injection Hstep as <-. now apply debounce_inv_call.
    + destruct (timers w !! id) as [tm|] eqn:Hl; [| discriminate Hstep].
      destruct (deadline tm <=? now w) eqn:Hdue; [| discriminate Hstep].
      injection Hstep as <-. apply debounce_inv_fire; [assumption.. |].
      now apply Z.leb_le.
    + destruct (0 <=? d) eqn:Hd; [| discriminate Hstep].
      injection Hstep as <-. apply debounce_inv_advance; [| assumption].
      now apply Z.leb_le.
Qed.
End PureDebounce.

Lemma debounce_inv_init W t0 : debounce_inv reduceArgs W (init t0 : world A T).
Proof.
  unfold debounce_inv, init; cbn.
  split; [reflexivity |]. split; [reflexivity |]. split; [constructor |].
  split; [| split; [exact I | discriminate]].
  intros i tm Hl. rewrite lookup_empty in Hl. discriminate Hl.
Qed.

(** C1, as the code has it: a funnel with the ["end"] policy, cool-down
    [W], no [maxBurstDurationMs] and no [delayMs] is a debouncer.  Along
    a run of calls, timer callbacks and passing time, the executor runs
    only when every call since its last run is at least [W] ms old, and
    it is handed the left fold of those calls, oldest first.  It does run:
    a pending payload is guarded by the burst timer armed at the newest
    call, and that timer's callback hands the payload to the executor. *)
Theorem debounce_trailing_edge W evs t0 w :
  edge = AtEnd ->
  burstCoolDownMs policy = Some W ->
  maxBurstDurationMs policy = None ->
  delayMs policy = None ->
  forallb call_or_timer evs = true ->
  run reduceArgs policy evs (init t0) = Some w ->
  trailing_debounce reduceArgs W (log w) /\
  (forall param,
      preparedData (vars w) = Some param ->
      exists id tm t a cs,
        timers w !! id = Some tm /\
        calls_since_exec (log w) = (t, a) :: cs /\
        deadline tm = t + Z.max 0 W /\
        (deadline tm <= now w ->
         exists w',
           step reduceArgs policy (Fire id) w = Some w' /\
           executions (log w') = (now w, param) :: executions (log w))).
Proof.
  intros He Hcool Hmax Hdelay Hok Hrun.
  destruct (debounce_inv_run W He Hcool Hmax Hdelay evs (init t0) w Hok)
    as (Hd & Hp & Hnow & Htm & Hdeb & Hguard);
    [apply debounce_inv_init | exact Hrun |].
  split; [now apply debounced_trailing |].
  intros param Hparam.
  destruct (Hguard param Hparam) as (id & tm & t & a & cs & Hb & Hl & Hcs & Ht).
  destruct (Htm id tm Hl) as (_ & Hcb & Hms & _).
  exists id, tm, t, a, cs.
  split; [exact Hl |]. split; [exact Hcs |].
  split; [unfold deadline; now rewrite Hms, Ht |].
  intros Hdue. apply Z.leb_le in Hdue.
  cbn [step]. rewrite Hl, Hdue, Hcb. cbn [run_handler].
  eexists. split; [reflexivity |].
  open_world w. clear Hp Hguard. subst d p b.
  set (w' := handleBurstEnd _ _).
  name_result w' ltac:(fun H => unfold with_timers in H; eval_funnel H).
  reflexivity.
Qed.

(** *** [flush] *)

(** X1: both handlers run, yet the payload reaches the executor once, from
    whatever state [flush] is called; nothing is left pending. *)
Lemma flush_runs_executor_once w :
  executions (log (flush policy w)) =
    match preparedData (vars w) with
    | Some param => (now w, param) :: executions (log w)
    | None => executions (log w)
    end /\
  preparedData (vars (flush policy w)) = None.
Proof.
  open_world w. set (w' := flush _ _).
  destruct (delayMs policy) eqn:Hdelay, b, d, p;
    name_result w' ltac:(fun H => eval_funnel H); fields;
    split; reflexivity.
Qed.

(** X2: the funnel is idle after [flush] unless the delay timer was live,
    a payload was pending and [delayMs] is set: then [handleDelayEnd] runs
    the executor and [invoke] arms the delay timer again. *)
Lemma flush_idle w :
  isIdle (flush policy w) =
    undefined (delayTimeoutId (vars w)) ||
    undefined (preparedData (vars w)) ||
    undefined (delayMs policy).
Proof.
  open_world w. set (w' := flush _ _).
  destruct (delayMs policy) eqn:Hdelay, b, d, p;
    name_result w' ltac:(fun H => eval_funnel H); reflexivity.
Qed.

(** *** Pending timers belong to the closure *)

Lemma timers_owned_invoke w :
  timers_owned w -> delayTimeoutId (vars w) = None ->
  timers_owned (invoke policy w).
Proof.
  intros Hown Hd. open_world w. subst d.
  unfold invoke; fields. destruct p as [param|]; [| exact Hown].
  destruct (delayMs policy) as [ms|]; [| exact Hown].
  cbv [execute setTimeout record with_vars set_preparedData
       set_delayTimeoutId now nextId timers vars log].
  unfold timers_owned in *; fields.
  intros i tm [[<- <-] | [Hne Hl]]%lookup_insert_Some.
  - right. split; reflexivity.
  - destruct (Hown i tm Hl) as [Hb | [_ Hd]]; [left; exact Hb | discriminate Hd].
Qed.

Lemma timers_owned_handleBurstEnd w :
  timers_owned w -> timers_owned (handleBurstEnd policy w).
Proof.
  intros Hown. open_world w.
  set (w1 := {| now := n; nextId := k;
                timers := match b with Some o => delete o tms | None => tms end;
                vars := {| burstTimeoutId := None; delayTimeoutId := d;
                           preparedData := p; burstStartTimestamp := None |};
                log := l |}).
  assert (Heq : handleBurstEnd policy
                  {| now := n; nextId := k; timers := tms;
                     vars := {| burstTimeoutId := b; delayTimeoutId := d;
                                preparedData := p; burstStartTimestamp := s |};
                     log := l |} =
                if undefined d then invoke policy w1 else w1)
    by (destruct b; reflexivity).
  rewrite Heq. clear Heq.
  assert (Hw1 : timers_owned w1).
  { subst w1. unfold timers_owned in *; fields.
    intros i tm Hl. right.
    apply lookup_after_clear in Hl as [Hl' Hb].
    destruct (Hown i tm Hl') as [[_ Hbi] | Hdl]; [contradiction | exact Hdl]. }
  destruct d; cbn [undefined]; [exact Hw1 |].
  now apply timers_owned_invoke.
Qed.

Lemma timers_owned_handleDelayEnd w :
  timers_owned w -> timers_owned (handleDelayEnd policy w).
Proof.
  intros Hown. open_world w.
  set (w1 := {| now := n; nextId := k;
                timers := match d with Some o => delete o tms | None => tms end;
                vars := {| burstTimeoutId := b; delayTimeoutId := None;
                           preparedData := p; burstStartTimestamp := s |};
                log := l |}).
  assert (Heq : handleDelayEnd policy
                  {| now := n; nextId := k; timers := tms;
                     vars := {| burstTimeoutId := b; delayTimeoutId := d;
                                preparedData := p; burstStartTimestamp := s |};
                     log := l |} =
                if undefined b then invoke policy w1 else w1)
    by (destruct d; reflexivity).
  rewrite Heq. clear Heq.
  assert (Hw1 : timers_owned w1).
  { subst w1. unfold timers_owned in *; fields.
    intros i tm Hl. left.
    apply lookup_after_clear in Hl as [Hl' Hd].
    destruct (Hown i tm Hl') as [Hbl | [_ Hdi]]; [exact Hbl | contradiction]. }
  destruct b; cbn [undefined]; [exact Hw1 |].
  now apply timers_owned_invoke.
Qed.

Lemma timers_owned_armBurst idle w :
  timers_owned w -> timers_owned (armBurst policy idle w).
Proof.
  intros Hown. unfold armBurst.
  destruct (burstCoolDownMs policy) as [cool|]; [| exact Hown].
  destruct (undefined (burstTimeoutId (vars w)) && negb idle);
    [exact Hown |].
  open_world w.
  set (w0 := {| now := n; nextId := k; timers := tms;
                vars := {| burstTimeoutId := b; delayTimeoutId := d;
                           preparedData := p; burstStartTimestamp := s |};
                log := l |}).
  assert (Hkeep : clearTimeout b w0 =
            with_timers
              (fun m => match b with Some o => delete o m | None => m end) w0)
    by (destruct b; reflexivity).
  rewrite Hkeep. subst w0.
  cbv [setTimeout with_timers with_vars set_burstStartTimestamp
       set_burstTimeoutId Date_now now nextId timers vars log
       burstTimeoutId delayTimeoutId preparedData burstStartTimestamp].
  unfold timers_owned in *; fields.
  intros i tm [[<- <-] | [Hne Hl]]%lookup_insert_Some.
  - left. split; reflexivity.
  - right.
    apply lookup_after_clear in Hl as [Hl' Hb].
    destruct (Hown i tm Hl') as [[_ Hbi] | Hdl]; [contradiction | exact Hdl].
Qed.

Lemma timers_owned_call a w :
  timers_owned w -> timers_owned (call reduceArgs policy a w).
Proof.
  intros Hown. rewrite call_phases. apply timers_owned_armBurst.
  cbv zeta.
  assert (Hwf : forall c : bool,
             timers_owned
               (if c
                then with_vars
                       (set_preparedData
                          (reduceArgs (preparedData (vars w)) a)) w
                else w)).
  { intros []; [| exact Hown]. open_world w. exact Hown. }
  destruct (isIdle w) eqn:Hidle; rewrite ?andb_false_r; [| apply Hwf].
  destruct (negb (invokedAt_eqb edge AtEnd)); cbn [andb]; [| apply Hwf].
  apply timers_owned_invoke; [apply Hwf |].
  unfold isIdle in Hidle. apply andb_prop in Hidle as [_ Hd].
  rewrite orb_true_r. open_world w. now destruct d.
Qed.

Lemma cancel_owned_timers w :
  timers_owned w -> timers (cancel w) = ∅.
Proof.
  intros Hown. open_world w. apply map_empty. intros i.
  apply eq_None_not_Some. intros [tm Hl].
  unfold timers_owned in Hown; fields.
  assert (Hold : tms !! i = Some tm /\ b <> Some i /\ d <> Some i).
  { destruct b as [ob|], d as [od|]; cbn in Hl;
      repeat (apply lookup_delete_Some in Hl as [? Hl]);
      repeat split; congruence. }
  destruct Hold as (Hl' & Hb & Hd).
  destruct (Hown i tm Hl') as [[_ ?] | [_ ?]]; contradiction.
Qed.

Lemma timers_owned_step ev w w' :
  timers_owned w -> step reduceArgs policy ev w = Some w' -> timers_owned w'.
Proof.
  intros Hown Hstep.
  destruct ev as [a | | | id | d]; cbn in Hstep.
  - injection Hstep as <-. apply timers_owned_call.
    open_world w. exact Hown.
  - injection Hstep as <-. intros i tm Hl.
    rewrite (cancel_owned_timers w Hown), lookup_empty in Hl. discriminate Hl.
  - injection Hstep as <-.
    apply timers_owned_handleDelayEnd, timers_owned_handleBurstEnd, Hown.
  - destruct (timers w !! id) as [tm|] eqn:Hl; [| discriminate Hstep].
    destruct (deadline tm <=? now w); [| discriminate Hstep].
    injection Hstep as <-.
    assert (Hrem : timers_owned (with_timers (delete id) w)).
    { open_world w. unfold timers_owned, with_timers in *; fields.
      intros i tm' [_ Hi]%lookup_delete_Some. now apply Hown. }
    destruct (callback tm); cbn [run_handler];
      [now apply timers_owned_handleDelayEnd
      | now apply timers_owned_handleBurstEnd].
  - destruct (0 <=? d); [| discriminate Hstep].
    injection Hstep as <-. open_world w. exact Hown.
Qed.

(** Whatever happened to a funnel since it was built, its pending timers
    are those its closure remembers. *)
Lemma timers_owned_run evs t0 w :
  run reduceArgs policy evs (init t0) = Some w -> timers_owned w.
Proof.
  assert (Hgen : forall w0 : world A T,
             timers_owned w0 ->
             run reduceArgs policy evs w0 = Some w -> timers_owned w).
  { induction evs as [|ev evs IH]; intros w0 Hown Hrun; cbn in Hrun.
    - now injection Hrun as <-.
    - destruct (step reduceArgs policy ev w0) as [w1|] eqn:Hstep;
        [| discriminate Hrun].
      eapply IH; [| exact Hrun]. eapply timers_owned_step; eassumption. }
  apply Hgen. intros i tm Hl. cbn in Hl. rewrite lookup_empty in Hl.
  discriminate Hl.
Qed.

(** ** More about the handlers and the event loop *)

Local Ltac name_def x f :=
  let body := eval cbv delta [x] in x in
  let H := fresh "Hdef" in
  assert (H : x = body) by reflexivity; clearbody x; f H; subst x.

Lemma handleBurstEnd_eq w :
  handleBurstEnd policy w =
    if undefined (delayTimeoutId (vars w))
    then invoke policy (burstCleared w) else burstCleared w.
Proof. open_world w. destruct b; reflexivity. Qed.

Lemma handleDelayEnd_eq w :
  handleDelayEnd policy w =
    if undefined (burstTimeoutId (vars w))
    then invoke policy (delayCleared w) else delayCleared w.
Proof. open_world w. destruct d; reflexivity. Qed.

(** The runtime forgets a timer before it runs its callback, and the
    callback clears the same timer again: for a timer the closure tracks,
    firing it is running its handler. *)
Lemma fire_as_handler id tm w :
  timers_owned w ->
  timers w !! id = Some tm ->
  run_handler policy (callback tm) (with_timers (delete id) w) =
    run_handler policy (callback tm) w.
Proof.
  intros Hown Hl.
  destruct (Hown id tm Hl) as [[Hcb Hb] | [Hcb Hd]]; rewrite Hcb;
    cbn [run_handler]; open_world w; subst.
  - rewrite !handleBurstEnd_eq. unfold burstCleared, with_timers; fields.
    cbn [clearOpt]. now rewrite delete_delete_eq.
  - rewrite !handleDelayEnd_eq. unfold delayCleared, with_timers; fields.
    cbn [clearOpt]. now rewrite delete_delete_eq.
Qed.

(** To show that every state a funnel can reach has a property, show it of
    a fresh funnel and show that the three methods, the two handlers and
    the passing of time keep it. *)
Lemma reachable_ind (P : world A T -> Prop) :
  (forall a w, timers_owned w -> P w ->
     P (call reduceArgs policy a (record (ObsCall (now w) a) w))) ->
  (forall w, timers_owned w -> P w -> P (cancel w)) ->
  (forall w, timers_owned w -> P w -> P (handleBurstEnd policy w)) ->
  (forall w, timers_owned w -> P w -> P (handleDelayEnd policy w)) ->
  (forall ms w, 0 <= ms -> P w -> P (advance ms w)) ->
  forall evs t0 w,
    P (init t0) -> run reduceArgs policy evs (init t0) = Some w -> P w.
Proof.
  intros Hcall Hcancel Hburst Hdelay Hadv evs t0 w Hinit Hrun.
  assert (Hgen : forall w0 : world A T,
             timers_owned w0 -> P w0 ->
             run reduceArgs policy evs w0 = Some w -> P w).
  { clear Hrun Hinit. induction evs as [|ev evs IH]; intros w0 Hown HP Hrun;
      cbn in Hrun.
    - now injection Hrun as <-.
    - destruct (step reduceArgs policy ev w0) as [w1|] eqn:Hstep;
        [| discriminate Hrun].
      apply (IH w1); [eapply timers_owned_step; eassumption | | exact Hrun].
      clear IH Hrun.
      destruct ev as [a | | | id | ms]; cbn in Hstep.
      + injection Hstep as <-. now apply Hcall.
      + injection Hstep as <-. now apply Hcancel.
      + injection Hstep as <-. apply Hdelay.
        * now apply timers_owned_handleBurstEnd.
        * now apply Hburst.
      + destruct (timers w0 !! id) as [tm|] eqn:Hl; [| discriminate Hstep].
        destruct (deadline tm <=? now w0); [| discriminate Hstep].
        injection Hstep as <-. rewrite (fire_as_handler id tm w0 Hown Hl).
        destruct (callback tm); cbn [run_handler];
          [now apply Hdelay | now apply Hburst].
      + destruct (0 <=? ms) eqn:Hms; [| discriminate Hstep].
        injection Hstep as <-. apply Hadv; [now apply Z.leb_le | exact HP]. }
  apply (Hgen (init t0)); [| exact Hinit | exact Hrun].
  intros i tm Hl. cbn in Hl. rewrite lookup_empty in Hl. discriminate Hl.
Qed.

(** X3: a second [flush] runs nothing and leaves the funnel idle, also
    when the first one left the delay timer armed. *)
Theorem flush_twice_is_idle w :
  let w1 := flush policy w in
  let w2 := flush policy w1 in
  executions (log w2) = executions (log w1) /\
  isIdle w2 = true /\
  preparedData (vars w2) = None /\
  burstStartTimestamp (vars w2) = None.
Proof.
  intros w1 w2. open_world w.
  destruct (delayMs policy) eqn:Hdelay, b, d, p;
    name_def w1 ltac:(fun H => eval_funnel H);
    name_def w2 ltac:(fun H => eval_funnel H); fields;
    repeat split; reflexivity.
Qed.

(** X9: with no payload pending, nothing but a call makes the executor
    run: a timer callback, [flush], [cancel] and the passing of time leave
    the executions and the empty payload as they are. *)
Theorem empty_payload_runs_nothing ev w w' :
  preparedData (vars w) = None ->
  (forall a, ev <> Call a) ->
  step reduceArgs policy ev w = Some w' ->
  executions (log w') = executions (log w) /\
  preparedData (vars w') = None.
Proof.
  intros Hp Hev Hstep. open_world w. subst p.
  destruct ev as [a | | | id | ms]; cbn in Hstep.
  - now destruct (Hev a).
  - injection Hstep as <-. destruct b, d; split; reflexivity.
  - injection Hstep as <-. set (w1 := flush _ _).
    destruct b, d; name_result w1 ltac:(fun H => eval_funnel H);
      split; reflexivity.
  - destruct (tms !! id) as [tm|]; [| discriminate Hstep].
    destruct (deadline tm <=? n); [| discriminate Hstep].
    injection Hstep as <-. set (w1 := run_handler _ _ _).
    destruct (callback tm), b, d;
      name_result w1
        ltac:(fun H => unfold run_handler, with_timers in H; eval_funnel H);
      split; reflexivity.
  - destruct (0 <=? ms); [| discriminate Hstep].
    injection Hstep as <-. split; reflexivity.
Qed.

(** What a step adds to the executions, and when it adds nothing. *)
Lemma call_executes_only_idle a w :
  isIdle w = false ->
  log (call reduceArgs policy a w) = log w.
Proof.
  intros Hidle. open_world w. set (w' := call _ _ _ _).
  destruct (burstCoolDownMs policy) eqn:Hcool, edge eqn:He, b, d;
    try discriminate Hidle;
    name_result w' ltac:(fun H => eval_funnel H); reflexivity.
Qed.

Lemma handleBurstEnd_defers w :
  delayTimeoutId (vars w) <> None ->
  log (handleBurstEnd policy w) = log w.
Proof.
  intros Hd. rewrite handleBurstEnd_eq. open_world w.
  destruct d; [reflexivity | contradiction].
Qed.

Lemma handleDelayEnd_defers w :
  burstTimeoutId (vars w) <> None ->
  log (handleDelayEnd policy w) = log w.
Proof.
  intros Hb. rewrite handleDelayEnd_eq. open_world w.
  destruct b; [reflexivity | contradiction].
Qed.

(** X8: the executor runs only once both moratoriums are over.  In a state
    the funnel can reach, a call that runs it found no timer pending, and
    a timer callback that runs it belonged to the only pending timer;
    [cancel] and the passing of time never run it. *)
Theorem executes_only_when_clear evs t0 w ev w' :
  run reduceArgs policy evs (init t0) = Some w ->
  step reduceArgs policy ev w = Some w' ->
  executions (log w') <> executions (log w) ->
  moratorium_clear ev w.
Proof.
  intros Hrun Hstep Hgrew.
  pose proof (timers_owned_run evs t0 w Hrun) as Hown.
  destruct ev as [a | | | id | ms]; cbn in Hstep; cbn [moratorium_clear].
  - injection Hstep as <-.
    destruct (isIdle w) eqn:Hidle.
    + apply map_empty. intros i. apply eq_None_not_Some. intros [tm Hl].
      unfold isIdle in Hidle. apply andb_prop in Hidle as [Hb Hd].
      destruct (Hown i tm Hl) as [[_ Hi] | [_ Hi]]; rewrite Hi in *;
        discriminate.
    + exfalso. apply Hgrew.
      rewrite call_executes_only_idle by (open_world w; exact Hidle).
      open_world w. reflexivity.
  - apply Hgrew. injection Hstep as <-. open_world w.
    destruct b, d; reflexivity.
  - exact I.
  - destruct (timers w !! id) as [tm|] eqn:Hl; [| discriminate Hstep].
    destruct (deadline tm <=? now w); [| discriminate Hstep].
    injection Hstep as <-. rewrite (fire_as_handler id tm w Hown Hl) in Hgrew.
    intros j Hj. apply eq_None_not_Some. intros [tmj Hlj].
    apply Hgrew. f_equal.
    destruct (Hown id tm Hl) as [[Hcb Hb] | [Hcb Hd]]; rewrite Hcb;
      cbn [run_handler].
    + apply handleBurstEnd_defers.
      destruct (Hown j tmj Hlj) as [[_ Hbj] | [_ Hdj]]; congruence.
    + apply handleDelayEnd_defers.
      destruct (Hown j tmj Hlj) as [[_ Hbj] | [_ Hdj]]; congruence.
  - apply Hgrew. destruct (0 <=? ms); [| discriminate Hstep].
    now injection Hstep as <-.
Qed.

(** X12: when [delayMs] is set, every run of the executor caused by a call
    or by a timer callback arms the delay timer for [delayMs] from that
    instant. *)
Theorem execution_arms_delay ms ev w w' :
  delayMs policy = Some ms ->
  ev <> Flush ->
  step reduceArgs policy ev w = Some w' ->
  executions (log w') <> executions (log w) ->
  exists id,
    delayTimeoutId (vars w') = Some id /\
    timers w' !! id =
      Some {| callback := HandleDelayEnd; armedAt := now w; timeoutMs := ms |}.
Proof.
  intros Hdelay Hev Hstep Hgrew. open_world w.
  destruct ev as [a | | | id | d0]; cbn in Hstep.
  - injection Hstep as <-. set (w1 := call _ _ _ _) in *.
    destruct (burstCoolDownMs policy) eqn:Hcool, edge eqn:He, b, d;
      name_result w1 ltac:(fun H => eval_funnel H); fields;
      try (now destruct Hgrew);
      destruct (reduceArgs p a); fields; try (now destruct Hgrew);
      exists k; (split; [reflexivity |]);
      rewrite ?(lookup_insert_ne _ (S k) k) by lia; apply lookup_insert_eq.
  - exfalso. apply Hgrew. injection Hstep as <-. destruct b, d; reflexivity.
  - now destruct Hev.
  - destruct (tms !! id) as [tm|]; [| discriminate Hstep].
    destruct (deadline tm <=? n); [| discriminate Hstep].
    injection Hstep as <-. set (w1 := run_handler _ _ _) in *.
    destruct (callback tm), b, d, p;
      name_result w1
        ltac:(fun H => unfold run_handler, with_timers in H; eval_funnel H);
      fields; try (now destruct Hgrew);
      exists k; (split; [reflexivity |]); apply lookup_insert_eq.
  - exfalso. apply Hgrew. destruct (0 <=? d0); [| discriminate Hstep].
    now injection Hstep as <-.
Qed.

(** ** What every reachable state satisfies *)

(** X4: however a funnel is driven ([flush] and [cancel] included), every
    pending timer is the burst timer or the delay timer its closure
    remembers; so at most one timer of each kind is pending. *)
Theorem pending_timers_tracked evs t0 w :
  run reduceArgs policy evs (init t0) = Some w ->
  timers_owned w /\
  (forall i j tmi tmj,
      timers w !! i = Some tmi -> timers w !! j = Some tmj ->
      callback tmi = callback tmj -> i = j).
Proof.
  intros Hrun. pose proof (timers_owned_run evs t0 w Hrun) as Hown.
  split; [exact Hown |].
  intros i j tmi tmj Hi Hj Hcb.
  destruct (Hown i tmi Hi) as [[Hci Hbi] | [Hci Hdi]],
           (Hown j tmj Hj) as [[Hcj Hbj] | [Hcj Hdj]]; congruence.
Qed.

Lemma invoke_keeps_burst w :
  burstTimeoutId (vars (invoke policy w)) = burstTimeoutId (vars w) /\
  burstStartTimestamp (vars (invoke policy w)) = burstStartTimestamp (vars w).
Proof.
  open_world w. unfold invoke; fields.
  destruct p; [| split; reflexivity].
  destruct (delayMs policy); split; reflexivity.
Qed.

Lemma burst_start_tracked_invoke w :
  burst_start_tracked w -> burst_start_tracked (invoke policy w).
Proof.
  unfold burst_start_tracked. destruct (invoke_keeps_burst w) as [-> ->].
  auto.
Qed.

Lemma burst_start_tracked_armBurst idle w :
  burst_start_tracked w -> burst_start_tracked (armBurst policy idle w).
Proof.
  intros H. unfold armBurst.
  destruct (burstCoolDownMs policy) as [cool|]; [| exact H].
  destruct (undefined (burstTimeoutId (vars w)) && negb idle); [exact H |].
  open_world w. unfold burst_start_tracked. destruct b, s; cbn; split; discriminate.
Qed.

Lemma burst_start_tracked_call a w :
  burst_start_tracked w -> burst_start_tracked (call reduceArgs policy a w).
Proof.
  intros H. rewrite call_phases. apply burst_start_tracked_armBurst. cbv zeta.
  assert (Hwf : forall c : bool,
             burst_start_tracked
               (if c
                then with_vars
                       (set_preparedData
                          (reduceArgs (preparedData (vars w)) a)) w
                else w)).
  { intros []; [| exact H]. open_world w. exact H. }
  destruct (negb (invokedAt_eqb edge AtEnd) && isIdle w);
    [apply burst_start_tracked_invoke |]; apply Hwf.
Qed.

(** X6: the burst start is held exactly while a burst timer is: both are
    set by the arming step of [call] and both are dropped by
    [handleBurstEnd] and [cancel]. *)
Theorem burst_start_iff_burst_timer evs t0 w :
  run reduceArgs policy evs (init t0) = Some w ->
  (burstStartTimestamp (vars w) = None <-> burstTimeoutId (vars w) = None).
Proof.
  intros Hrun.
  apply (reachable_ind burst_start_tracked) with (evs := evs) (t0 := t0);
    [ | | | | | split; reflexivity | exact Hrun].
  - intros a w0 _ H. apply burst_start_tracked_call.
    open_world w0. exact H.
  - intros w0 _ _. open_world w0. destruct b, d; split; reflexivity.
  - intros w0 _ _. rewrite handleBurstEnd_eq.
    assert (Hc : burst_start_tracked (burstCleared w0))
      by (open_world w0; split; reflexivity).
    destruct (undefined _); [now apply burst_start_tracked_invoke | exact Hc].
  - intros w0 _ H. rewrite handleDelayEnd_eq.
    assert (Hc : burst_start_tracked (delayCleared w0))
      by (open_world w0; exact H).
    destruct (undefined _); [now apply burst_start_tracked_invoke | exact Hc].
  - intros ms w0 _ H. open_world w0. exact H.
Qed.

Lemma burst_start_tracked_run evs t0 w :
  run reduceArgs policy evs (init t0) = Some w -> burst_start_tracked w.
Proof.
  intros Hrun.
  apply (reachable_ind burst_start_tracked) with (evs := evs) (t0 := t0);
    [ | | | | | split; reflexivity | exact Hrun].
  - intros a w0 _ H. apply burst_start_tracked_call.
    open_world w0. exact H.
  - intros w0 _ _. open_world w0. destruct b, d; split; reflexivity.
  - intros w0 _ _. rewrite handleBurstEnd_eq.
    assert (Hc : burst_start_tracked (burstCleared w0))
      by (open_world w0; split; reflexivity).
    destruct (undefined _); [now apply burst_start_tracked_invoke | exact Hc].
  - intros w0 _ H. rewrite handleDelayEnd_eq.
    assert (Hc : burst_start_tracked (delayCleared w0))
      by (open_world w0; exact H).
    destruct (undefined _); [now apply burst_start_tracked_invoke | exact Hc].
  - intros ms w0 _ H. open_world w0. exact H.
Qed.

(** C9, as the code has it: [cancel] forgets both timers, the burst start
    and the payload, runs nothing, leaves the funnel idle, and doing it
    twice is doing it once.  In a state the funnel can reach, no timer is
    left pending.  On a funnel that is already idle it changes nothing but
    the pending payload, which it discards (an idle funnel the code can
    reach has no burst start); with no payload pending it changes
    nothing. *)
Theorem cancel_resets w :
  let w' := cancel w in
  burstTimeoutId (vars w') = None /\
  delayTimeoutId (vars w') = None /\
  burstStartTimestamp (vars w') = None /\
  preparedData (vars w') = None /\
  isIdle w' = true /\
  log w' = log w /\
  (forall id,
      burstTimeoutId (vars w) = Some id \/ delayTimeoutId (vars w) = Some id ->
      timers w' !! id = None) /\
  (forall id,
      burstTimeoutId (vars w) <> Some id -> delayTimeoutId (vars w) <> Some id ->
      timers w' !! id = timers w !! id) /\
  (timers_owned w -> timers w' = ∅) /\
  cancel w' = w' /\
  (isIdle w = true -> burstStartTimestamp (vars w) = None ->
   w' = with_vars (set_preparedData None) w /\
   (preparedData (vars w) = None -> w' = w)) /\
  (forall evs t0,
      run reduceArgs policy evs (init t0) = Some w ->
      isIdle w = true ->
      w' = with_vars (set_preparedData None) w /\
      (preparedData (vars w) = None -> w' = w)).
Proof.
  intros w'. pose proof (cancel_owned_timers w) as Hempty. fold w' in Hempty.
  assert (Hidle : isIdle w = true -> burstStartTimestamp (vars w) = None ->
                  w' = with_vars (set_preparedData None) w /\
                  (preparedData (vars w) = None -> w' = w)).
  { subst w'. clear Hempty. intros Hidle Hs. open_world w. subst s.
    destruct b, d; try discriminate Hidle.
    split; [reflexivity | intros ->; reflexivity]. }
  assert (Hreach : forall evs t0,
             run reduceArgs policy evs (init t0) = Some w ->
             isIdle w = true ->
             w' = with_vars (set_preparedData None) w /\
             (preparedData (vars w) = None -> w' = w)).
  { intros evs t0 Hrun Hi. apply Hidle; [exact Hi |].
    apply (burst_start_tracked_run evs t0 w Hrun).
    unfold isIdle in Hi. apply andb_prop in Hi as [Hb _].
    now destruct (burstTimeoutId (vars w)). }
  open_world w.
  destruct b as [ob|], d as [od|];
    name_result w' ltac:(fun H => eval_funnel H); fields;
    repeat (split; [reflexivity |]);
    (split;
     [ intros id [Hid | Hid]; try discriminate Hid; injection Hid as <-;
       rewrite !lookup_delete; repeat case_decide; congruence
     | split;
       [ intros id Hb Hd; rewrite ?lookup_delete_ne by congruence;
         reflexivity
       | split; [exact Hempty |]; split; [reflexivity |];
         split; [exact Hidle | exact Hreach] ] ]).
Qed.

(** *** Idle and empty *)

Lemma invoke_empties w : preparedData (vars (invoke policy w)) = None.
Proof.
  open_world w. unfold invoke; fields.
  destruct p; [| reflexivity]. destruct (delayMs policy); reflexivity.
Qed.

Lemma idle_is_empty_call a w :
  edge <> AtEnd \/ burstCoolDownMs policy <> None ->
  idle_is_empty w -> idle_is_empty (call reduceArgs policy a w).
Proof.
  intros Hpol H. open_world w. unfold idle_is_empty in *.
  set (w' := call _ _ _ _).
  destruct (burstCoolDownMs policy) eqn:Hcool, (delayMs policy) eqn:Hdelay,
           edge eqn:He, b, d;
    try (exfalso; destruct Hpol; congruence);
    name_def w' ltac:(fun H => eval_funnel H);
    try (destruct (reduceArgs p a)); fields; cbn;
    first [discriminate | reflexivity | intros _; apply H; reflexivity].
Qed.

(** X10: unless the policy is ["end"] with no [burstCoolDownMs], an idle
    funnel holds no payload, however it was driven: nothing a caller
    passed is left waiting with no timer to deliver it. *)
Theorem idle_funnel_holds_nothing evs t0 w :
  edge <> AtEnd \/ burstCoolDownMs policy <> None ->
  run reduceArgs policy evs (init t0) = Some w ->
  isIdle w = true ->
  preparedData (vars w) = None.
Proof.
  intros Hpol Hrun.
  apply (reachable_ind idle_is_empty) with (evs := evs) (t0 := t0);
    [ | | | | | intros _; reflexivity | exact Hrun].
  - intros a w0 _ H. apply idle_is_empty_call; [exact Hpol |].
    open_world w0. exact H.
  - intros w0 _ _ _. open_world w0. destruct b, d; reflexivity.
  - intros w0 _ _. rewrite handleBurstEnd_eq. unfold idle_is_empty.
    destruct (delayTimeoutId (vars w0)) eqn:Hd; cbn [undefined].
    + open_world w0. subst d. cbn. discriminate.
    + intros _. apply invoke_empties.
  - intros w0 _ _. rewrite handleDelayEnd_eq. unfold idle_is_empty.
    destruct (burstTimeoutId (vars w0)) eqn:Hb; cbn [undefined].
    + open_world w0. subst b. cbn. discriminate.
    + intros _. apply invoke_empties.
  - intros ms w0 _ H. open_world w0. exact H.
Qed.

(** *** Ids name pending timers *)

Lemma ids_live_invoke w :
  ids_live w -> delayTimeoutId (vars w) = None -> ids_live (invoke policy w).
Proof.
  intros (Hfresh & Hb & Hd) Hnone. open_world w. subst d.
  unfold invoke; fields.
  destruct p as [param|]; [| repeat split; assumption].
  destruct (delayMs policy) as [ms|];
    cbv [execute setTimeout record with_vars set_preparedData
         set_delayTimeoutId now nextId timers vars log];
    unfold ids_live; fields; [| repeat split; assumption].
  split; [| split].
  - intros i tm [[<- <-] | [Hne Hl]]%lookup_insert_Some; [lia |].
    specialize (Hfresh i tm Hl). lia.
  - intros i Hi. destruct (Hb i Hi) as (tm & Hl & Hcb).
    exists tm. split; [| exact Hcb].
    rewrite lookup_insert_ne; [exact Hl |].
    specialize (Hfresh i tm Hl). lia.
  - intros i [= <-]. eexists. split; [apply lookup_insert_eq | reflexivity].
Qed.

Lemma ids_live_burstCleared w : ids_live w -> ids_live (burstCleared w).
Proof.
  intros (Hfresh & Hb & Hd). open_world w. unfold ids_live, burstCleared; fields.
  split; [| split].
  - intros i tm [Hl _]%lookup_after_clear. exact (Hfresh i tm Hl).
  - discriminate.
  - intros j Hj. destruct (Hd j Hj) as (tm & Hl & Hcb).
    exists tm. split; [| exact Hcb].
    destruct b as [o|]; cbn [clearOpt]; [| exact Hl].
    rewrite lookup_delete_ne; [exact Hl |].
    intros ->. destruct (Hb j eq_refl) as (tm' & Hl' & Hcb'). congruence.
Qed.

Lemma ids_live_delayCleared w : ids_live w -> ids_live (delayCleared w).
Proof.
  intros (Hfresh & Hb & Hd). open_world w. unfold ids_live, delayCleared; fields.
  split; [| split].
  - intros i tm [Hl _]%lookup_after_clear. exact (Hfresh i tm Hl).
  - intros j Hj. destruct (Hb j Hj) as (tm & Hl & Hcb).
    exists tm. split; [| exact Hcb].
    destruct d as [o|]; cbn [clearOpt]; [| exact Hl].
    rewrite lookup_delete_ne; [exact Hl |].
    intros ->. destruct (Hd j eq_refl) as (tm' & Hl' & Hcb'). congruence.
  - discriminate.
Qed.

Lemma ids_live_armBurst idle w :
  ids_live w -> ids_live (armBurst policy idle w).
Proof.
  intros Hlive. unfold armBurst.
  destruct (burstCoolDownMs policy) as [cool|]; [| exact Hlive].
  destruct (undefined (burstTimeoutId (vars w)) && negb idle); [exact Hlive |].
  destruct Hlive as (Hfresh & Hb & Hd). open_world w.
  set (w0 := {| now := n; nextId := k; timers := tms;
                vars := {| burstTimeoutId := b; delayTimeoutId := d;
                           preparedData := p; burstStartTimestamp := s |};
                log := l |}).
  assert (Hkeep : clearTimeout b w0 = with_timers (clearOpt b) w0)
    by (destruct b; reflexivity).
  rewrite Hkeep. subst w0.
  cbv [setTimeout with_timers with_vars set_burstStartTimestamp
       set_burstTimeoutId Date_now now nextId timers vars log
       burstTimeoutId delayTimeoutId preparedData burstStartTimestamp].
  unfold ids_live; fields. split; [| split].
  - intros i tm [[<- <-] | [Hne [Hl _]%lookup_after_clear]]%lookup_insert_Some;
      [lia |].
    specialize (Hfresh i tm Hl). lia.
  - intros i [= <-]. eexists. split; [apply lookup_insert_eq | reflexivity].
  - intros j Hj. destruct (Hd j Hj) as (tm & Hl & Hcb).
    exists tm. split; [| exact Hcb].
    rewrite lookup_insert_ne by (specialize (Hfresh j tm Hl); lia).
    destruct b as [o|]; cbn [clearOpt]; [| exact Hl].
    rewrite lookup_delete_ne; [exact Hl |].
    intros ->. destruct (Hb j eq_refl) as (tm' & Hl' & Hcb'). congruence.
Qed.

Lemma ids_live_call a w :
  ids_live w -> ids_live (call reduceArgs policy a w).
Proof.
  intros Hlive. rewrite call_phases. apply ids_live_armBurst. cbv zeta.
  assert (Hwf : forall c : bool,
             ids_live
               (if c
                then with_vars
                       (set_preparedData
                          (reduceArgs (preparedData (vars w)) a)) w
                else w)).
  { intros []; [| exact Hlive]. open_world w. exact Hlive. }
  destruct (isIdle w) eqn:Hidle; rewrite ?andb_false_r; [| apply Hwf].
  destruct (negb (invokedAt_eqb edge AtEnd)); cbn [andb]; [| apply Hwf].
  apply ids_live_invoke; [apply Hwf |].
  unfold isIdle in Hidle. apply andb_prop in Hidle as [_ Hd].
  rewrite orb_true_r. open_world w. now destruct d.
Qed.

Lemma ids_live_run evs t0 w :
  run reduceArgs policy evs (init t0) = Some w -> ids_live w.
Proof.
  intros Hrun.
  apply (reachable_ind ids_live) with (evs := evs) (t0 := t0);
    [ | | | | | | exact Hrun].
  - intros a w0 _ H. apply ids_live_call. open_world w0. exact H.
  - intros w0 _ (Hfresh & _ & _). open_world w0.
    unfold ids_live, cancel.
    destruct b, d;
      cbv [clearTimeout with_vars with_timers set_burstTimeoutId
           set_delayTimeoutId set_preparedData set_burstStartTimestamp
           now nextId timers vars log burstTimeoutId delayTimeoutId];
      (split; [| split; discriminate]);
      intros i tm Hl; apply (Hfresh i tm);
      repeat (apply lookup_delete_Some in Hl as [_ Hl]); exact Hl.
  - intros w0 _ H. rewrite handleBurstEnd_eq.
    pose proof (ids_live_burstCleared w0 H) as Hc.
    destruct (delayTimeoutId (vars w0)) eqn:Hd; cbn [undefined]; [exact Hc |].
    apply ids_live_invoke; [exact Hc |]. open_world w0. exact Hd.
  - intros w0 _ H. rewrite handleDelayEnd_eq.
    pose proof (ids_live_delayCleared w0 H) as Hc.
    destruct (burstTimeoutId (vars w0)) eqn:Hb; cbn [undefined]; [exact Hc |].
    apply ids_live_invoke; [exact Hc |]. open_world w0. reflexivity.
  - intros ms w0 _ H. open_world w0. exact H.
  - unfold ids_live, init; cbn. split; [| split; discriminate].
    intros i tm Hl. rewrite lookup_empty in Hl. discriminate Hl.
Qed.

(** X5: [isIdle] tells the truth about the runtime.  However a funnel is
    driven, it is idle exactly when none of its timers is pending, and an
    id its closure holds always names a pending timer. *)
Theorem idle_iff_no_timer_pending evs t0 w :
  run reduceArgs policy evs (init t0) = Some w ->
  (isIdle w = true <-> timers w = ∅) /\
  (forall id,
      burstTimeoutId (vars w) = Some id \/ delayTimeoutId (vars w) = Some id ->
      is_Some (timers w !! id)).
Proof.
  intros Hrun.
  pose proof (timers_owned_run evs t0 w Hrun) as Hown.
  destruct (ids_live_run evs t0 w Hrun) as (_ & Hb & Hd).
  assert (Hids : forall id,
             burstTimeoutId (vars w) = Some id \/
             delayTimeoutId (vars w) = Some id ->
             is_Some (timers w !! id)).
  { intros id [Hi | Hi]; [destruct (Hb id Hi) as (tm & Hl & _)
                         | destruct (Hd id Hi) as (tm & Hl & _)];
      rewrite Hl; eauto. }
  split; [split | exact Hids].
  - intros Hidle. apply map_empty. intros i. apply eq_None_not_Some.
    intros [tm Hl]. unfold isIdle in Hidle.
    apply andb_prop in Hidle as [Hbi Hdi].
    destruct (Hown i tm Hl) as [[_ Hi] | [_ Hi]]; rewrite Hi in *;
      discriminate.
  - intros Hempty. unfold isIdle.
    destruct (burstTimeoutId (vars w)) as [i|] eqn:Hbi.
    { destruct (Hids i (or_introl eq_refl)) as [tm Hl].
      rewrite Hempty, lookup_empty in Hl. discriminate Hl. }
    destruct (delayTimeoutId (vars w)) as [i|] eqn:Hdi; [| reflexivity].
    destruct (Hids i (or_intror eq_refl)) as [tm Hl].
    rewrite Hempty, lookup_empty in Hl. discriminate Hl.
Qed.

(** *** The cap on a burst *)

Section BurstCap.
Variable maxMs : Z.
Hypothesis Hmax : maxBurstDurationMs policy = Some maxMs.

Lemma burst_timer_exact_invoke w :
  burst_timer_exact policy maxMs w ->
  burst_timer_exact policy maxMs (invoke policy w).
Proof.
  intros Hex. open_world w. unfold invoke; fields.
  destruct p as [param|]; [| exact Hex].
  destruct (delayMs policy) as [ms|]; [| exact Hex].
  cbv [execute setTimeout record with_vars set_preparedData
       set_delayTimeoutId now nextId timers vars log].
  unfold burst_timer_exact in *; fields.
  intros i tm [[<- <-] | [Hne Hl]]%lookup_insert_Some Hcb;
    [discriminate Hcb | exact (Hex i tm Hl Hcb)].
Qed.

Lemma burst_timer_exact_armBurst idle w :
  timers_owned w ->
  burst_timer_exact policy maxMs w ->
  burst_timer_exact policy maxMs (armBurst policy idle w).
Proof.
  intros Hown Hex. unfold armBurst.
  destruct (burstCoolDownMs policy) as [cool|] eqn:Hcool; [| exact Hex].
  destruct (undefined (burstTimeoutId (vars w)) && negb idle); [exact Hex |].
  open_world w.
  set (w0 := {| now := n; nextId := k; timers := tms;
                vars := {| burstTimeoutId := b; delayTimeoutId := d;
                           preparedData := p; burstStartTimestamp := s |};
                log := l |}).
  assert (Hkeep : clearTimeout b w0 = with_timers (clearOpt b) w0)
    by (destruct b; reflexivity).
  rewrite Hkeep. subst w0. unfold burstRemainingMs. rewrite Hmax.
  cbv [setTimeout with_timers with_vars set_burstStartTimestamp
       set_burstTimeoutId Date_now now nextId timers vars log
       burstTimeoutId delayTimeoutId preparedData burstStartTimestamp].
  unfold burst_timer_exact, timers_owned in *; fields.
  intros i tm [[<- <-] | [Hne [Hl Hb]%lookup_after_clear]]%lookup_insert_Some
    Hcb.
  - eexists _, cool. split; [reflexivity |]. split; [exact Hcool |].
    reflexivity.
  - destruct (Hown i tm Hl) as [[_ Hbi] | [Hcd _]]; congruence.
Qed.

Lemma burst_timer_exact_call a w :
  timers_owned w ->
  burst_timer_exact policy maxMs w ->
  burst_timer_exact policy maxMs (call reduceArgs policy a w).
Proof.
  intros Hown Hex. rewrite call_phases. cbv zeta.
  assert (Hwf : forall c : bool,
             let wf := if c
                       then with_vars
                              (set_preparedData
                                 (reduceArgs (preparedData (vars w)) a)) w
                       else w in
             timers_owned wf /\ burst_timer_exact policy maxMs wf).
  { intros []; cbv zeta; [| now split]. open_world w. now split. }
  destruct (isIdle w) eqn:Hidle; rewrite ?andb_false_r;
    [| now apply burst_timer_exact_armBurst; apply Hwf].
  destruct (negb (invokedAt_eqb edge AtEnd)); cbn [andb];
    [| now apply burst_timer_exact_armBurst; apply Hwf].
  rewrite orb_true_r. destruct (Hwf true) as [Hown' Hex'].
  apply burst_timer_exact_armBurst; [| now apply burst_timer_exact_invoke].
  apply timers_owned_invoke; [exact Hown' |].
  unfold isIdle in Hidle. apply andb_prop in Hidle as [_ Hd].
  open_world w. now destruct d.
Qed.

Lemma burst_timer_exact_run evs t0 w :
  run reduceArgs policy evs (init t0) = Some w ->
  burst_timer_exact policy maxMs w.
Proof.
  intros Hrun.
  apply (reachable_ind (burst_timer_exact policy maxMs))
    with (evs := evs) (t0 := t0); [ | | | | | | exact Hrun].
  - intros a w0 Hown H. apply burst_timer_exact_call; open_world w0; assumption.
  - intros w0 Hown _ i tm Hl.
    rewrite (cancel_owned_timers w0 Hown), lookup_empty in Hl. discriminate Hl.
  - intros w0 Hown _. rewrite handleBurstEnd_eq.
    assert (Hc : burst_timer_exact policy maxMs (burstCleared w0)).
    { open_world w0. unfold burst_timer_exact, burstCleared; fields.
      intros i tm [Hl Hb]%lookup_after_clear Hcb.
      destruct (Hown i tm Hl) as [[_ Hbi] | [Hcd _]]; [| congruence].
      cbn in Hbi. congruence. }
    destruct (undefined _); [now apply burst_timer_exact_invoke | exact Hc].
  - intros w0 _ H. rewrite handleDelayEnd_eq.
    assert (Hc : burst_timer_exact policy maxMs (delayCleared w0)).
    { open_world w0. unfold burst_timer_exact, delayCleared in *; fields.
      intros i tm [Hl _]%lookup_after_clear Hcb. exact (H i tm Hl Hcb). }
    destruct (undefined _); [now apply burst_timer_exact_invoke | exact Hc].
  - intros ms w0 _ H. open_world w0. exact H.
  - intros i tm Hl. cbn in Hl. rewrite lookup_empty in Hl. discriminate Hl.
Qed.
End BurstCap.

(** X7: with [maxBurstDurationMs] set, a pending burst timer was armed for
    [min(burstCoolDownMs, maxBurstDurationMs - (armedAt - start))] with
    [start] the burst start the closure still holds; so it is due no later
    than [start + maxBurstDurationMs], or at once when it was armed after
    that, however many calls extended the burst. *)
Theorem burst_timer_capped maxMs evs t0 w id tm :
  maxBurstDurationMs policy = Some maxMs ->
  run reduceArgs policy evs (init t0) = Some w ->
  timers w !! id = Some tm ->
  callback tm = HandleBurstEnd ->
  exists s cool,
    burstStartTimestamp (vars w) = Some s /\
    burstCoolDownMs policy = Some cool /\
    timeoutMs tm = Z.min cool (maxMs - (armedAt tm - s)) /\
    deadline tm <= Z.max (armedAt tm) (s + maxMs).
Proof.
  intros Hmax Hrun Hl Hcb.
  destruct (burst_timer_exact_run maxMs Hmax evs t0 w Hrun id tm Hl Hcb)
    as (s & cool & Hs & Hcool & Hms).
  exists s, cool. repeat (split; [assumption |]).
  unfold deadline. rewrite Hms. lia.
Qed.

(** *** The leading edge alone *)



(** *** What a call and a flush add to the executions *)

Lemma call_end_keeps_log a w :
  edge = AtEnd -> log (call reduceArgs policy a w) = log w.
Proof.
  intros He. open_world w. set (w' := call _ _ _ _).
  destruct (burstCoolDownMs policy) eqn:Hcool, b, d;
    name_def w' ltac:(fun H => eval_funnel H); reflexivity.
Qed.

Lemma call_idle_start_executions a w :
  edge <> AtEnd ->
  isIdle w = true ->
  executions (log (call reduceArgs policy a w)) =
    match reduceArgs (preparedData (vars w)) a with
    | Some param => (now w, param) :: executions (log w)
    | None => executions (log w)
    end.
Proof.
  intros He Hidle. open_world w. set (w' := call _ _ _ _).
  destruct b, d; try discriminate Hidle.
  destruct (burstCoolDownMs policy) eqn:Hcool, (delayMs policy) eqn:Hdelay,
           edge eqn:He'; try congruence;
    name_def w' ltac:(fun H => eval_funnel H);
    destruct (reduceArgs p a); reflexivity.
Qed.

Lemma flush_executions w :
  executions (log (flush policy w)) =
    match preparedData (vars w) with
    | Some param => (now w, param) :: executions (log w)
    | None => executions (log w)
    end.
Proof.
  open_world w. set (w' := flush _ _).
  destruct (delayMs policy) eqn:Hdelay, b, d, p;
    name_def w' ltac:(fun H => eval_funnel H); reflexivity.
Qed.

(** *** What the executor is handed *)

Lemma payload_tracks_calls_invoke w :
  payload_tracks_calls reduceArgs w ->
  payload_tracks_calls reduceArgs (invoke policy w).
Proof.
  intros [Hp Hlog]. open_world w. unfold invoke; fields.
  destruct p as [param|]; [| now split].
  destruct (delayMs policy);
    cbv [execute setTimeout record with_vars set_preparedData
         set_delayTimeoutId now nextId timers vars log];
    unfold payload_tracks_calls; fields;
    cbn [calls_since_exec folded_log]; (split; [reflexivity |]);
    (split; [now rewrite <- Hp | exact Hlog]).
Qed.

Lemma payload_tracks_calls_armBurst idle w :
  payload_tracks_calls reduceArgs w ->
  payload_tracks_calls reduceArgs (armBurst policy idle w).
Proof.
  intros H. unfold armBurst.
  destruct (burstCoolDownMs policy); [| exact H].
  destruct (undefined (burstTimeoutId (vars w)) && negb idle); [exact H |].
  open_world w. destruct b; exact H.
Qed.

Lemma payload_tracks_calls_call a w :
  edge <> AtStart ->
  payload_tracks_calls reduceArgs w ->
  payload_tracks_calls reduceArgs
    (call reduceArgs policy a (record (ObsCall (now w) a) w)).
Proof.
  intros He [Hp Hlog]. rewrite call_phases.
  apply payload_tracks_calls_armBurst. cbv zeta.
  assert (Hne : negb (invokedAt_eqb edge AtStart) = true)
    by (destruct edge; [reflexivity | reflexivity | contradiction]).
  rewrite Hne. cbn [orb].
  assert (Hwf : payload_tracks_calls reduceArgs
                  (with_vars
                     (set_preparedData
                        (reduceArgs
                           (preparedData (vars (record (ObsCall (now w) a) w)))
                           a))
                     (record (ObsCall (now w) a) w))).
  { open_world w.
    unfold payload_tracks_calls, record, with_vars, set_preparedData; fields.
    cbn [calls_since_exec folded_log].
    split; [now rewrite payload_of_cons, Hp | exact Hlog]. }
  destruct (_ && _); [now apply payload_tracks_calls_invoke | exact Hwf].
Qed.

Lemma payload_tracks_calls_step ev w w' :
  edge <> AtStart ->
  not_cancel ev = true ->
  payload_tracks_calls reduceArgs w ->
  step reduceArgs policy ev w = Some w' ->
  payload_tracks_calls reduceArgs w'.
Proof.
  intros He Hev H Hstep.
  assert (Hburst : forall w0 : world A T,
             payload_tracks_calls reduceArgs w0 ->
             payload_tracks_calls reduceArgs (handleBurstEnd policy w0)).
  { intros w0 H0. rewrite handleBurstEnd_eq.
    assert (Hc : payload_tracks_calls reduceArgs (burstCleared w0))
      by (open_world w0; exact H0).
    destruct (undefined _); [now apply payload_tracks_calls_invoke | exact Hc]. }
  assert (Hdelay : forall w0 : world A T,
             payload_tracks_calls reduceArgs w0 ->
             payload_tracks_calls reduceArgs (handleDelayEnd policy w0)).
  { intros w0 H0. rewrite handleDelayEnd_eq.
    assert (Hc : payload_tracks_calls reduceArgs (delayCleared w0))
      by (open_world w0; exact H0).
    destruct (undefined _); [now apply payload_tracks_calls_invoke | exact Hc]. }
  destruct ev as [a | | | id | ms]; try discriminate Hev; cbn in Hstep.
  - injection Hstep as <-. now apply payload_tracks_calls_call.
  - injection Hstep as <-. now apply Hdelay, Hburst.
  - destruct (timers w !! id) as [tm|]; [| discriminate Hstep].
    destruct (deadline tm <=? now w); [| discriminate Hstep].
    injection Hstep as <-.
    assert (Hrem : payload_tracks_calls reduceArgs (with_timers (delete id) w))
      by (open_world w; exact H).
    destruct (callback tm); cbn [run_handler];
      [now apply Hdelay | now apply Hburst].
  - destruct (0 <=? ms); [| discriminate Hstep].
    injection Hstep as <-. open_world w. exact H.
Qed.

Lemma folded_log_split l :
  folded_log reduceArgs l ->
  forall newer t param seen older,
    l = newer ++ ObsExec t param seen :: older ->
    Some param = payload_of reduceArgs (calls_since_exec older).
Proof.
  intros Hlog newer. revert l Hlog.
  induction newer as [|o newer IH]; intros l Hlog t param seen older ->.
  - now destruct Hlog.
  - destruct o as [tc a | te pe se]; cbn in Hlog.
    + eapply IH; [exact Hlog | reflexivity].
    + destruct Hlog as [_ Hlog]. eapply IH; [exact Hlog | reflexivity].
Qed.

(** X17: unless the policy is ["start"], along any run without [cancel]
    ([flush] included, whatever the durations), each run of the executor
    is handed the left fold of all the calls made since its previous run,
    and the pending payload is the fold of the calls made since its last
    run.  (Whether and when a pending payload is executed is another
    matter.) *)
Theorem executions_fold_calls_since_last evs t0 w :
  edge <> AtStart ->
  forallb not_cancel evs = true ->
  run reduceArgs policy evs (init t0) = Some w ->
  (forall newer t param seen older,
      log w = newer ++ ObsExec t param seen :: older ->
      Some param = payload_of reduceArgs (calls_since_exec older)) /\
  preparedData (vars w) = payload_of reduceArgs (calls_since_exec (log w)).
Proof.
  intros He Hok Hrun.
  assert (Hgen : forall w0 : world A T,
             payload_tracks_calls reduceArgs w0 ->
             run reduceArgs policy evs w0 = Some w ->
             payload_tracks_calls reduceArgs w).
  { clear Hrun. induction evs as [|ev evs IH]; intros w0 H0 Hrun; cbn in *.
    - now injection Hrun as <-.
    - apply andb_prop in Hok as [Hev Hok].
      destruct (step reduceArgs policy ev w0) as [w1|] eqn:Hstep;
        [| discriminate Hrun].
      apply (IH Hok w1); [| exact Hrun].
      eapply payload_tracks_calls_step; eassumption. }
  destruct (Hgen (init t0)) as [Hp Hlog];
    [split; [reflexivity | exact I] | exact Hrun |].
  split; [| exact Hp].
  intros newer t param seen older Hsplit.
  exact (folded_log_split (log w) Hlog newer t param seen older Hsplit).
Qed.

(** X18: a funnel with [burstCoolDownMs] is never idle when a call
    returns: either the call armed the burst timer, or the delay timer it
    found is still pending. *)
Theorem call_leaves_funnel_active a w cool :
  burstCoolDownMs policy = Some cool ->
  isIdle (call reduceArgs policy a w) = false.
Proof.
  intros Hcool. open_world w. set (w' := call _ _ _ _).
  destruct (delayMs policy) eqn:Hdelay, edge eqn:He, b, d;
    name_def w' ltac:(fun H => eval_funnel H);
    try (destruct (reduceArgs p a)); reflexivity.
Qed.
End FunnelFacts.

(** ** The debouncer with a cached value *)

Section CachedDebouncerFacts.
Context {A R : Type}.
Variable func : A -> R.
Variable wait : Z.
Variable options : DebounceOptions.

Lemma debouncePolicy_edge :
  invokedAtOrDefault (debouncePolicy wait options) =
    if trailingOrDefault options
    then (if leadingOrDefault options then AtBoth else AtEnd)
    else AtStart.
Proof. reflexivity. Qed.

(** X13: a call on an idle debouncer that fires on the leading edge
    ([leading: true], or [trailing: false], which alone makes the policy
    ["start"]) returns [func] of its own arguments. *)
Theorem leading_call_returns_own_result args (w : world A A) :
  leadingOrDefault options = true \/ trailingOrDefault options = false ->
  isIdle w = true ->
  fst (debouncedCall func wait options args w) = Some (func args).
Proof.
  intros Hopt Hidle. unfold debouncedCall, cachedValue. cbn [fst].
  rewrite call_idle_start_executions; [reflexivity | | exact Hidle].
  rewrite debouncePolicy_edge.
  destruct (trailingOrDefault options), (leadingOrDefault options);
    destruct Hopt; congruence.
Qed.

(** X14: every other call returns what was cached before it: a call on a
    trailing-only debouncer, and any call made while a timer is pending. *)
Theorem call_returns_cached_value args (w : world A A) :
  (leadingOrDefault options = false /\ trailingOrDefault options = true) \/
  isIdle w = false ->
  fst (debouncedCall func wait options args w) = cachedValue func w /\
  executions (log (snd (debouncedCall func wait options args w))) =
    executions (log w).
Proof.
  intros Hcase. unfold debouncedCall, cachedValue. cbn [fst snd].
  assert (Hlog : log (call keepArgs (debouncePolicy wait options) args w)
                 = log w).
  { destruct Hcase as [[Hl Ht] | Hidle].
    - apply call_end_keeps_log. rewrite debouncePolicy_edge, Ht, Hl.
      reflexivity.
    - now apply call_executes_only_idle. }
  rewrite Hlog. split; reflexivity.
Qed.

(** X15: [flush] returns [func] of the pending arguments when a call is
    waiting, and the cached value otherwise. *)
Theorem flush_returns_pending_result (w : world A A) :
  fst (debouncedFlush func wait options w) =
    match preparedData (vars w) with
    | Some args => Some (func args)
    | None => cachedValue func w
    end.
Proof.
  unfold debouncedFlush, cachedValue. cbn [fst]. rewrite flush_executions.
  destruct (preparedData (vars w)); reflexivity.
Qed.
End CachedDebouncerFacts.

(** ** The evaluator of [mapWithFeedback] *)

Section MapWithFeedbackFacts.
Context {E U : Type}.
Variable reducer : U -> E -> nat -> list E -> U.

Lemma evaluateFrom_lookup data items :
  forall prev index k x,
    items !! k = Some x ->
    evaluateFrom reducer data prev index items !! k =
      Some {| done := false; hasNext := true;
              next := foldFrom reducer data prev index (take (S k) items) |}.
Proof.
  induction items as [|y items IH]; intros prev index k x Hk; [discriminate |].
  destruct k as [|k]; [reflexivity |]. cbn in Hk.
  cbn [evaluateFrom lazyEvaluator]. cbn. now apply (IH _ _ k x).
Qed.

Lemma evaluateFrom_length data items :
  forall prev index,
    length (evaluateFrom reducer data prev index items) = length items.
Proof.
  induction items as [|y items IH]; intros prev index; [reflexivity |].
  cbn. now rewrite IH.
Qed.

(** X16: called once per element of an array, in order, the evaluator of
    [lazyImplementation] yields one value per element and never says it
    is done; the value for element [k] is the left fold of the elements up
    to [k] from the initial value (the reducer being given each index and
    the whole array), so the last one is the fold of the whole array. *)
Theorem evaluator_yields_running_folds initialValue data :
  length (evaluateAll reducer initialValue data) = length data /\
  (forall k x,
      data !! k = Some x ->
      evaluateAll reducer initialValue data !! k =
        Some {| done := false; hasNext := true;
                next := foldFrom reducer data initialValue 0
                          (take (S k) data) |}) /\
  (data <> [] ->
   next <$> last (evaluateAll reducer initialValue data) =
     Some (foldFrom reducer data initialValue 0 data)).
Proof.
  unfold evaluateAll. split; [apply evaluateFrom_length |].
  split; [intros k x Hk; now apply (evaluateFrom_lookup data data _ _ k x) |].
  intros Hne.
  destruct (last data) as [x|] eqn:Hlast;
    [| apply last_None in Hlast; contradiction].
  rewrite last_lookup in Hlast. rewrite last_lookup, evaluateFrom_length.
  rewrite (evaluateFrom_lookup data data _ _ _ x Hlast). cbn.
  do 2 f_equal. apply firstn_all2.
  destruct data; [contradiction | cbn; lia].
Qed.

(** When the reducer looks at neither the index nor the array, that fold
    is the ordinary left fold. *)
Lemma foldFrom_fold_left (f : U -> E -> U) data :
  (forall u e i d, reducer u e i d = f u e) ->
  forall items acc index,
    foldFrom reducer data acc index items = fold_left f items acc.
Proof.
  intros Hf. induction items as [|x items IH]; intros acc index;
    [reflexivity |].
  cbn. now rewrite Hf, IH.
Qed.
End MapWithFeedbackFacts.

(** ** The properties on the fixtures *)

(** The first test of the suite: ["a"], ["b"], ["c"] at once, and the
    executor gets ["c"] when the burst timer fires. *)
Lemma debounce_trailing_edge_witness :
  exists w,
    run lastValue debouncer32 script_debounce (init 0) = Some w /\
    executions (log w) = [(128, "c"%string)] /\
    trailing_debounce lastValue 32 (log w).
Proof.
  eexists. split; [vm_compute; reflexivity |]. split; [reflexivity |].
  eapply proj1.
  apply (debounce_trailing_edge lastValue debouncer32 32 script_debounce 0);
    [reflexivity | reflexivity | reflexivity | reflexivity | reflexivity |].
  vm_compute. reflexivity.
Defined.

(** C1 as stated leaves [delayMs] free.  With [delayMs] set, a call made
    while the delay timer is pending arms no burst timer, and the delay
    timer hands it to the executor 5 ms later although the cool-down is
    10 ms. *)
Lemma delay_timer_cuts_cool_down :
  invokedAtOrDefault debouncer10_delay10 = AtEnd /\
  burstCoolDownMs debouncer10_delay10 = Some 10 /\
  maxBurstDurationMs debouncer10_delay10 = None /\
  exists w,
    run lastValue debouncer10_delay10 script_call_during_delay (init 0)
      = Some w /\
    executions (log w) = [(20, "b"); (10, "a")]%string /\
    ~ trailing_debounce lastValue 10 (log w).
Proof.
  repeat (split; [reflexivity |]).
  eexists. split; [vm_compute; reflexivity |]. split; [reflexivity |].
  intros Hspec. edestruct (Hspec []) as [_ Hold]; [reflexivity |].
  cbn in Hold. inversion Hold as [| c cs Hc _]. cbn in Hc. lia.
Defined.

(** A reducer may return [undefined]: then the start edge runs nothing. *)
Lemma start_edge_skips_undefined :
  invokedAtOrDefault leading_only = AtStart /\
  isIdle (init 0 : world (option string) string) = true /\
  log (call lastValueOrUndefined leading_only None (init 0)) = [] /\
  isIdle (call lastValueOrUndefined leading_only None (init 0)) = true.
Proof. repeat split. Defined.

Lemma start_edge_executes_witness :
  exists seen,
    log (call lastValue throttle100_both "a"%string (init 0))
      = [ObsExec 0 "a"%string seen] /\
    preparedData seen = None.
Proof.
  exact (proj1 (start_edge_executes lastValue throttle100_both
                  "a"%string (init 0) "a"%string
                  (or_intror eq_refl) eq_refl eq_refl)).
Defined.

(** C4 on the code: the executor ran at 10, a call came at 20, [flush] at 30
    runs the executor a second time and leaves the funnel with a pending
    delay timer: it is not idle. *)
Theorem flush_leaves_delay_timer :
  exists w,
    run lastValue debouncer10_delay100 script_flush_after_execution (init 0)
      = Some w /\
    executions (log w) = [(30, "b"); (10, "a")]%string /\
    isIdle w = false /\
    delayTimeoutId (vars w) = Some 2%nat /\
    timers w !! 2%nat =
      Some {| callback := HandleDelayEnd; armedAt := 30; timeoutMs := 100 |}.
Proof.
  eexists. split; [vm_compute; reflexivity |]. repeat split.
Qed.

Lemma end_edge_not_in_call_frame_witness :
  log (call lastValue zero_timeouts "a"%string (init 0)) = [].
Proof.
  exact (proj1 (end_edge_not_in_call_frame lastValue zero_timeouts eq_refl)
           "a"%string (init 0)).
Defined.

(** C6 as stated lets [flush] in: it runs the executor 2 ms after the
    previous run although [delayMs] is 100. *)
Lemma flush_ignores_delay :
  delayMs throttle100_both = Some 100 /\
  exists w,
    run lastValue throttle100_both script_flush_during_delay (init 0)
      = Some w /\
    executions (log w) = [(2, "b"); (0, "a")]%string /\
    ~ spaced 100 (executions (log w)).
Proof.
  split; [reflexivity |].
  eexists. split; [vm_compute; reflexivity |]. split; [reflexivity |].
  cbn. intros [Hgap _]. lia.
Defined.

Lemma delay_spaces_executions_witness :
  exists w,
    run lastValue throttle100_both script_throttle (init 0) = Some w /\
    executions (log w) = [(100, "b"); (0, "a")]%string /\
    spaced 100 (executions (log w)).
Proof.
  eexists. split; [vm_compute; reflexivity |]. split; [reflexivity |].
  apply (delay_spaces_executions lastValue throttle100_both 100
           script_throttle 0); [reflexivity | reflexivity |].
  vm_compute. reflexivity.
Defined.

Lemma burst_arming_witness :
  let w' := call lastValue debouncer20_max50 "d"%string mid_burst in
  burstStartTimestamp (vars w') = Some 0 /\
  exists id,
    burstTimeoutId (vars w') = Some id /\
    timers w' !! id =
      Some {| callback := HandleBurstEnd; armedAt := 45; timeoutMs := 5 |} /\
    (forall old,
        burstTimeoutId (vars mid_burst) = Some old -> old <> id ->
        timers w' !! old = None).
Proof.
  exact (burst_arming lastValue debouncer20_max50 "d"%string mid_burst 20
           eq_refl (or_introl (fun H => eq_ind (Some 2%nat)
              (fun o => match o with Some _ => True | None => False end)
              I None H))).
Defined.

Lemma call_during_delay_only_witness :
  let w' := call lastValue debouncer10_delay100 "b"%string mid_delay in
  timers w' = timers mid_delay /\ nextId w' = 2%nat /\ now w' = 20 /\
  burstTimeoutId (vars w') = None /\
  delayTimeoutId (vars w') = Some 1%nat /\
  burstStartTimestamp (vars w') = None /\
  log w' = [] /\
  preparedData (vars w') = Some "b"%string.
Proof.
  exact (call_during_delay_only lastValue debouncer10_delay100 "b"%string
           mid_delay 10 1%nat eq_refl eq_refl eq_refl).
Defined.

Lemma end_without_burst_never_fires_witness :
  exists w,
    run lastValue delay50_only script_two_calls (init 0) = Some w /\
    executions (log w) = [] /\
    timers w = ∅ /\
    nextId w = 0%nat /\
    isIdle w = true /\
    preparedData (vars w) = Some "b"%string.
Proof.
  eexists. split; [vm_compute; reflexivity |].
  apply (end_without_burst_never_fires lastValue delay50_only
           script_two_calls 0); [reflexivity | reflexivity | reflexivity |].
  vm_compute. reflexivity.
Defined.

(** The leading debouncer of the tests: the second call of a burst is not
    folded. *)
Lemma call_fold_rule_witness :
  preparedData (vars (call lastValue leading32 "b"%string mid_burst))
    = Some "c"%string /\
  log (call lastValue leading32 "b"%string mid_burst) = [].
Proof.
  exact (proj2 (call_fold_rule lastValue leading32 "b"%string mid_burst)
           eq_refl eq_refl).
Defined.

Lemma cancel_resets_witness :
  timers (cancel mid_burst) = ∅ /\
  isIdle (cancel mid_burst) = true /\
  cancel (cancel mid_burst) = cancel mid_burst /\
  cancel (init 0 : world string string) = init 0.
Proof.
  destruct (cancel_resets lastValue debouncer32 mid_burst)
    as (_ & _ & _ & _ & Hidle & _ & _ & _ & Hempty & Hidem & _).
  split; [| split; [exact Hidle | split; [exact Hidem |]]].
  - apply Hempty. intros i tm Hl. unfold mid_burst in Hl. cbn [timers] in Hl.
    apply lookup_singleton_Some in Hl as [<- <-]. left. split; reflexivity.
  - destruct (cancel_resets lastValue debouncer32 (init 0))
      as (_ & _ & _ & _ & _ & _ & _ & _ & _ & _ & Hinit & _).
    exact (proj2 (Hinit eq_refl eq_refl) eq_refl).
Defined.

(** C9 as stated says that [cancel] on an idle funnel changes nothing.
    With the policy [{}] a call leaves the funnel idle with its arguments
    pending (no timer is ever armed), and [cancel] discards them. *)
Lemma cancel_when_idle_discards_payload :
  exists w,
    run lastValue no_policy script_single_call (init 0) = Some w /\
    isIdle w = true /\
    preparedData (vars w) = Some "a"%string /\
    preparedData (vars (cancel w)) = None /\
    cancel w <> w.
Proof.
  eexists. split; [vm_compute; reflexivity |].
  split; [reflexivity |]. split; [reflexivity |]. split; [reflexivity |].
  intros Heq. apply (f_equal (fun w => preparedData (vars w))) in Heq.
  vm_compute in Heq. discriminate Heq.
Defined.

(** ** The further properties on the fixtures *)

Lemma pending_timers_tracked_witness :
  exists w,
    run lastValue debouncer10_delay100 script_flush_after_execution (init 0)
      = Some w /\
    timers_owned w /\
    (forall i j tmi tmj,
        timers w !! i = Some tmi -> timers w !! j = Some tmj ->
        callback tmi = callback tmj -> i = j).
Proof.
  eexists. split; [vm_compute; reflexivity |].
  apply (pending_timers_tracked lastValue debouncer10_delay100
           script_flush_after_execution 0).
  vm_compute. reflexivity.
Defined.

Lemma idle_iff_no_timer_pending_witness :
  exists w,
    run lastValue debouncer32 script_burst_done (init 0) = Some w /\
    isIdle w = true /\
    (isIdle w = true <-> timers w = ∅).
Proof.
  eexists. split; [vm_compute; reflexivity |]. split; [reflexivity |].
  eapply proj1.
  apply (idle_iff_no_timer_pending lastValue debouncer32 script_burst_done 0).
  vm_compute. reflexivity.
Defined.

Lemma burst_start_iff_burst_timer_witness :
  exists w,
    run lastValue debouncer32 script_one_burst (init 0) = Some w /\
    burstStartTimestamp (vars w) = Some 0 /\
    (burstStartTimestamp (vars w) = None <-> burstTimeoutId (vars w) = None).
Proof.
  eexists. split; [vm_compute; reflexivity |]. split; [reflexivity |].
  apply (burst_start_iff_burst_timer lastValue debouncer32 script_one_burst 0).
  vm_compute. reflexivity.
Defined.

Lemma burst_timer_capped_witness :
  exists w tm,
    run lastValue debouncer20_max50 script_burst_extended (init 0) = Some w /\
    timers w !! 3%nat = Some tm /\
    armedAt tm = 45 /\
    exists s cool,
      burstStartTimestamp (vars w) = Some s /\
      burstCoolDownMs debouncer20_max50 = Some cool /\
      timeoutMs tm = Z.min cool (50 - (armedAt tm - s)) /\
      deadline tm <= Z.max (armedAt tm) (s + 50).
Proof.
  do 2 eexists. split; [vm_compute; reflexivity |].
  split; [vm_compute; reflexivity |]. split; [reflexivity |].
  apply (burst_timer_capped lastValue debouncer20_max50 50
           script_burst_extended 0 _ 3%nat);
    [reflexivity | vm_compute; reflexivity | vm_compute; reflexivity
    | reflexivity].
Defined.

Lemma executes_only_when_clear_witness :
  exists w w',
    run lastValue debouncer32 script_one_burst (init 0) = Some w /\
    step lastValue debouncer32 (Fire 0%nat) w = Some w' /\
    executions (log w') = [(32, "a"%string)] /\
    moratorium_clear (Fire 0%nat) w.
Proof.
  do 2 eexists. split; [vm_compute; reflexivity |].
  split; [vm_compute; reflexivity |]. split; [reflexivity |].
  eapply (executes_only_when_clear lastValue debouncer32 script_one_burst 0);
    [vm_compute; reflexivity | vm_compute; reflexivity |].
  vm_compute. discriminate.
Defined.

Lemma empty_payload_runs_nothing_witness :
  exists w',
    step lastValue debouncer10_delay100 Flush mid_delay = Some w' /\
    executions (log w') = [] /\
    preparedData (vars w') = None.
Proof.
  eexists. split; [reflexivity |].
  apply (empty_payload_runs_nothing lastValue debouncer10_delay100
           Flush mid_delay);
    [reflexivity | discriminate | reflexivity].
Defined.

Lemma idle_funnel_holds_nothing_witness :
  exists w,
    run lastValue debouncer32 script_burst_done (init 0) = Some w /\
    isIdle w = true /\
    preparedData (vars w) = None.
Proof.
  eexists. split; [vm_compute; reflexivity |]. split; [reflexivity |].
  apply (idle_funnel_holds_nothing lastValue debouncer32 script_burst_done 0);
    [right; discriminate | vm_compute; reflexivity | reflexivity].
Defined.


Lemma execution_arms_delay_witness :
  exists w' id,
    step lastValue throttle100_both (Call "a"%string) (init 0) = Some w' /\
    delayTimeoutId (vars w') = Some id /\
    timers w' !! id =
      Some {| callback := HandleDelayEnd; armedAt := 0; timeoutMs := 100 |}.
Proof.
  eexists.
  destruct (execution_arms_delay lastValue throttle100_both 100
              (Call "a"%string) (init 0) _ eq_refl
              ltac:(discriminate) eq_refl ltac:(vm_compute; discriminate))
    as (id & Hid & Hl).
  exists id. split; [reflexivity |]. split; [exact Hid | exact Hl].
Defined.

(** The tests "can return a cached value" and "subsequent leading
    debounced calls return the last [func] result". *)
Lemma leading_call_returns_own_result_witness :
  fst (debouncedCall identityOfCall 32 leading_options "hello"%string (init 0))
    = Some "hello"%string.
Proof.
  exact (leading_call_returns_own_result identityOfCall 32 leading_options
           "hello"%string (init 0) (or_introl eq_refl) eq_refl).
Defined.

(** The test "should debounce a function": the first call returns
    [undefined]. *)
Lemma call_returns_cached_value_witness :
  fst (debouncedCall identityOfCall 32 default_options "a"%string (init 0))
    = None.
Proof.
  exact (proj1 (call_returns_cached_value identityOfCall 32 default_options
                  "a"%string (init 0) (or_introl (conj eq_refl eq_refl)))).
Defined.

(** The example of the documentation: [[1, 2, 3, 4, 5]] with
    [(prev, x) => prev + x] from 100. *)
Example mapWithFeedback_doc_example :
  map next
    (evaluateAll (fun (prev : Z) (x : Z) (_ : nat) (_ : list Z) => prev + x)
       100 [1; 2; 3; 4; 5])
  = [101; 103; 106; 110; 115].
Proof. reflexivity. Qed.

Lemma executions_fold_calls_since_last_witness :
  exists w,
    run lastValue throttle100_both script_flush_during_delay (init 0)
      = Some w /\
    executions (log w) = [(2, "b"); (0, "a")]%string /\
    preparedData (vars w) = payload_of lastValue (calls_since_exec (log w)).
Proof.
  eexists. split; [vm_compute; reflexivity |]. split; [reflexivity |].
  eapply proj2.
  apply (executions_fold_calls_since_last lastValue throttle100_both
           script_flush_during_delay 0);
    [discriminate | reflexivity | vm_compute; reflexivity].
Defined.

(** The test "can check for inflight timers (leading)". *)
Lemma call_leaves_funnel_active_witness :
  isIdle (call lastValue leading32 "hello"%string (init 0)) = false.
Proof.
  exact (call_leaves_funnel_active lastValue leading32 "hello"%string
           (init 0) 32 eq_refl).
Defined.
